(** * Lens: the indexing service ([lens.go]) and its gRPC front ([server])

    A shallow embedding of [Service.Magnify], [Service.Store],
    [Service.SearchByKeyName], [APIServer.Index] and [APIServer.Search],
    and the properties of the keyword index they maintain.

    The datastore behind [s.ss] is ONE flat key space: keyword records,
    the name record of an object (content hash to uuid) and the object
    record (uuid string to object) all live under string keys of the same
    map, exactly as [Store] writes them. *)

From stdpp Require Import gmap strings list.
From Stdlib Require Import Ascii String.

Open Scope string_scope.

(** ** package models *)

(** A [uuid.UUID] is carried by its canonical text form, the value of
    [id.String()]: that is the only shape under which the store sees it
    (as a key and as the payload of the name record), and [==] on the
    sixteen bytes agrees with equality of the text form. *)
Abbreviation UUID := string (only parsing).

Module models.

Record MetaData := mkMetaData {
  Summary : list string;
  MimeType : string;
  Category : string
}.

Record Object := mkObject {
  LensID : UUID;
  Name : string;
  Meta : MetaData
}.

Record Keyword := mkKeyword {
  KeywordName : string;
  LensIdentifiers : list UUID
}.

End models.
Import models.

(** What a value of the datastore holds.  [Store] writes three kinds of
    byte strings: the JSON of a keyword, the JSON of an object and the
    text of a uuid. *)
Inductive stored :=
| KeywordJSON (k : Keyword)
| ObjectJSON (o : Object)
| IDText (id : UUID).

(** [json.Unmarshal(keywordBytes, &keyword)].  The JSON of a keyword
    decodes to itself.  The JSON of an object is a JSON object too:
    decoding leaves the members the target lacks aside and the fields it
    does not find at their zero value, so the identifier list comes out
    empty.  The text of a uuid is no JSON value and decoding fails. *)
Definition unmarshalKeyword (b : stored) : option Keyword :=
  match b with
  | KeywordJSON k => Some k
  | ObjectJSON o => Some (mkKeyword (Name o) [])
  | IDText _ => None
  end.

(** ** Errors and the calls made to collaborators *)

Inductive error :=
| ErrAlreadyIndexed        (* "this object has already been indexed" *)
| ErrUnsupportedType       (* "unsupported content type for indexing" *)
| ErrKeynameMissing        (* "keyname does not exist" *)
| ErrInvalidDataType       (* "invalid data type" *)
| ErrFindID                (* "failed to find ID for object ..." *)
| ErrInvalidUUID           (* "invalid uuid found for ..." *)
| ErrNotFound              (* reindex of a name that has no record *)
| ErrStore                 (* an error of the datastore *)
| ErrUnmarshal             (* json.Unmarshal *)
| ErrFetch                 (* px.ExtractContents *)
| ErrPDF                   (* pdf.NewReader, GetPlainText, ReadFrom *)
| ErrImage                 (* ia.ClassifyImage *)
| ErrUUID                  (* uuid.NewV4 *)
| ErrDag                   (* im.DagPut *)
| ErrPanic.                (* index out of range *)

Inductive call :=
| CallHas (k : string)
| CallGet (k : string)
| CallPut (k : string)
| CallExtractContents (h : string)
| CallDetectContentType
| CallPDFText
| CallSummarize
| CallClassifyImage
| CallClear.

Inductive result (A : Type) :=
| Ok (a : A)
| Err (e : error).
Arguments Ok {A} a.
Arguments Err {A} e.

(** ** The service

    [ss] is the datastore, [ss_faults] says which of the coming datastore
    operations report an error ([true]: the operation fails and changes
    nothing; when the list is used up the operations succeed), [ta] is the
    text stored in the text analyzer, [calls] records the calls made to
    collaborators, oldest first. *)
Record Service := mkService {
  ss : gmap string stored;
  ss_faults : list bool;
  ta : list string;
  calls : list call
}.

Definition NewService : Service := mkService ∅ [] [] [].

(** Code that threads the service and may return an error; what was
    written before the error stays written. *)
Definition M (A : Type) : Type := Service → result A * Service.

Definition ret {A} (a : A) : M A := fun s => (Ok a, s).
Definition fail {A} (e : error) : M A := fun s => (Err e, s).
Definition bind {A B} (m : M A) (k : A → M B) : M B :=
  fun s => match m s with
           | (Ok a, s') => k a s'
           | (Err e, s') => (Err e, s')
           end.

Notation "'let*' x ':=' m 'in' k" := (bind m (fun x => k))
  (at level 10, x name, m at level 100, k at level 200).

Definition log (c : call) : M unit :=
  fun s => (Ok tt, mkService (ss s) (ss_faults s) (ta s) (calls s ++ [c])).

(** The next datastore operation: does it fail? *)
Definition fault : M bool :=
  fun s => match ss_faults s with
           | [] => (Ok false, s)
           | f :: fs => (Ok f, mkService (ss s) fs (ta s) (calls s))
           end.

(** ** package search: [Has], [Get], [Put] *)

Definition Has (k : string) : M bool :=
  let* _ := log (CallHas k) in
  let* f := fault in
  if f : bool then fail ErrStore
  else fun s => (Ok (bool_decide (is_Some (ss s !! k))), s).

Definition Get (k : string) : M stored :=
  let* _ := log (CallGet k) in
  let* f := fault in
  if f : bool then fail ErrStore
  else fun s => match ss s !! k with
                | Some b => (Ok b, s)
                | None => (Err ErrStore, s)
                end.

Definition Put (k : string) (b : stored) : M unit :=
  let* _ := log (CallPut k) in
  let* f := fault in
  if f : bool then fail ErrStore
  else fun s => (Ok tt, mkService (<[k := b]> (ss s)) (ss_faults s) (ta s) (calls s)).

(** ** [Service.Store] *)

Record IndexOperationResponse := mkIndexOperationResponse {
  ContentHash : string;
  RespLensID : UUID
}.

(** The inner loop of [Store]: [for _, v := range keyword.LensIdentifiers]
    with [if v == id { detected = true; break }]. *)
Fixpoint detected (id : UUID) (ids : list UUID) : bool :=
  match ids with
  | [] => false
  | v :: rest => if String.eqb v id then true else detected id rest
  end.

(** The outer loop of [Store], [for _, v := range meta.Summary]. *)
Fixpoint storeKeywords (id : UUID) (summary : list string) : M unit :=
  match summary with
  | [] => ret tt
  | v :: rest =>
      let* has := Has v in
      if negb has then
        let* _ := Put v (KeywordJSON (mkKeyword v [id])) in
        storeKeywords id rest
      else
        let* keywordBytes := Get v in
        match unmarshalKeyword keywordBytes with
        | None => fail ErrUnmarshal
        | Some keyword =>
            if detected id (LensIdentifiers keyword) then
              storeKeywords id rest
            else
              let keyword' := mkKeyword (KeywordName keyword)
                                        (LensIdentifiers keyword ++ [id]) in
              let* _ := Put v (KeywordJSON keyword') in
              storeKeywords id rest
        end
  end.

(** [Store].  [newV4] is what [uuid.NewV4()] returns in this call and
    [dagPut] what [s.im.DagPut] answers for the marshaled object; both are
    outside the service. *)
Definition Store (newV4 : option UUID) (dagPut : Object → option string)
    (meta : MetaData) (name : string) : M IndexOperationResponse :=
  match newV4 with
  | None => fail ErrUUID
  | Some id =>
      let obj := mkObject id name meta in
      let* _ := storeKeywords id (Summary meta) in
      let* _ := Put name (IDText id) in
      let* _ := Put id (ObjectJSON obj) in
      match dagPut obj with
      | None => fail ErrDag
      | Some hash => ret (mkIndexOperationResponse hash id)
      end
  end.

(** [SearchByKeyName]. *)
Definition SearchByKeyName (keyname : string) : M stored :=
  let* has := Has keyname in
  if negb has then fail ErrKeynameMissing else Get keyname.

(** ** [strings.FieldsFunc] and [utils.Unique] *)

(** [strings.FieldsFunc(s, f)]: the maximal runs of characters that do
    not satisfy [f], in order; [field] is the run being read.  The two
    separators [Magnify] uses are ASCII, so bytes and runes agree. *)
Fixpoint fieldsFrom (f : ascii → bool) (field s : string) : list string :=
  match s with
  | EmptyString => if String.eqb field "" then [] else [field]
  | String r rest =>
      if f r then
        if String.eqb field "" then fieldsFrom f "" rest
        else field :: fieldsFrom f "" rest
      else fieldsFrom f (field ++ String r "") rest
  end.

Definition FieldsFunc (f : ascii → bool) (s : string) : list string :=
  fieldsFrom f "" s.

Definition isSemicolon (r : ascii) : bool := Ascii.eqb r ";".
Definition isSlash (r : ascii) : bool := Ascii.eqb r "/".

(** Modelled from the spec: [utils.Unique] (package utils is not part of
    the sources at hand).  "Deduplicates the raw keyword list with
    first-occurrence order preserved." *)
Fixpoint UniqueFrom (seen : list string) (l : list string) : list string :=
  match l with
  | [] => []
  | x :: rest =>
      if bool_decide (x ∈ seen) then UniqueFrom seen rest
      else x :: UniqueFrom (x :: seen) rest
  end.

Definition Unique (l : list string) : list string := UniqueFrom [] l.

(** ** The collaborators

    What lies outside the service: the content fetch, the content type
    detection of [net/http], the PDF reader, the ranking behind the text
    analyzer, the image classifier, the uuid generator, IPFS and the
    keyword search of the datastore. *)
Record Collaborators := mkCollaborators {
  ExtractContents : string → option string;
  DetectContentType : string → string;
  GetPlainText : string → option string;
  TextRank : list string → Z * Z → list string;
  ClassifyImage : string → option string;
  NewV4 : option UUID;
  DagPut : Object → option string;
  KeywordSearch : gmap string stored → list string → option (list Object)
}.

(** The ratio [0.25] that [Magnify] passes to the summarizer, as the
    fraction [1/4]. *)
Definition ratio_0_25 : Z * Z := (1, 4)%Z.

Section Lens.

Variable c : Collaborators.

Definition liftOption {A} (cl : call) (e : error) (o : option A) : M A :=
  let* _ := log cl in
  match o with
  | Some a => ret a
  | None => fail e
  end.

(** Modelled from the spec: the text analyzer (package analyzer/text is
    not part of the sources at hand).  "The text-summarization
    collaborator may hold transient per-call state (e.g., a working
    corpus)"; "[Clear()] resets transient state".  [Summarize] adds the
    text to the stored corpus and ranks what is stored; [Clear] empties
    the corpus. *)
Definition Summarize (text : string) (ratio : Z * Z) : M (list string) :=
  let* _ := log CallSummarize in
  fun s =>
    let corpus := (ta s ++ [text])%list in
    (Ok (TextRank c corpus ratio),
     mkService (ss s) (ss_faults s) corpus (calls s)).

Definition Clear : M unit :=
  let* _ := log CallClear in
  fun s => (Ok tt, mkService (ss s) (ss_faults s) [] (calls s)).

(** The [switch parsed[0]] of [Magnify]: the keywords and the category,
    before [s.ta.Clear()]. *)
Definition classify (contents contentType : string)
    (parsed parsed2 : list string) : M (list string * string) :=
  match parsed with
  | [] => fail ErrPanic
  | parsed0 :: _ =>
      if String.eqb parsed0 "application/pdf" then
        let* text := liftOption CallPDFText ErrPDF (GetPlainText c contents) in
        let* meta := Summarize text ratio_0_25 in
        ret (meta, "pdf")
      else
        match parsed2 with
        | [] => fail ErrPanic
        | parsed20 :: _ =>
            if String.eqb parsed20 "text" then
              let* meta := Summarize contents ratio_0_25 in
              ret (meta, "document")
            else if String.eqb parsed20 "image" then
              let* keyword := liftOption CallClassifyImage ErrImage
                                (ClassifyImage c contents) in
              ret ([keyword], "image")
            else fail ErrUnsupportedType
        end
  end.

(** What [Magnify] does once the guard on the datastore is passed. *)
Definition examine (contentHash : string) : M (string * MetaData) :=
  let* contents := liftOption (CallExtractContents contentHash) ErrFetch
                     (ExtractContents c contentHash) in
  let* _ := log CallDetectContentType in
  let contentType := DetectContentType c contents in
  let parsed := FieldsFunc isSemicolon contentType in
  let parsed2 := FieldsFunc isSlash contentType in
  let* mc := classify contents contentType parsed parsed2 in
  let* _ := Clear in
  let metadata := mkMetaData (Unique (fst mc)) contentType (snd mc) in
  ret (hd "" parsed, metadata).

(** [Service.Magnify] of [lens.go]. *)
Definition Magnify (contentHash : string) : M (string * MetaData) :=
  let* has := Has contentHash in
  if has : bool then fail ErrAlreadyIndexed
  else examine contentHash.

(** [Service.KeywordSearch]: [return s.ss.KeywordSearch(keywords)]. *)
Definition ServiceKeywordSearch (keywords : list string) : M (list Object) :=
  fun s => match KeywordSearch c (ss s) keywords with
           | Some objects => (Ok objects, s)
           | None => (Err ErrStore, s)
           end.

(** *** The reindex side of the service

    [APIServer.Index] calls [Magnify(objectID, reindex)], [Get] and
    [Update] of the service; [lens.go] has [Magnify(contentHash)] only,
    so these three follow the specification. *)

(** Modelled from the spec: [Service.Magnify] with the reindex flag.
    "If [!reindex]: check [NameIndexRecord[identifier]] existence; if
    present, fail with [AlreadyIndexed].  If [reindex]: require
    [NameIndexRecord[identifier]] to exist; fail with [NotFound] if
    absent."  Without the flag it is [Magnify] of [lens.go]. *)
Definition MagnifyReindex (objectID : string) (reindex : bool) : M MetaData :=
  if reindex then
    let* has := Has objectID in
    if has : bool then
      let* r := examine objectID in ret (snd r)
    else fail ErrNotFound
  else
    let* r := Magnify objectID in ret (snd r).

(** Modelled from the spec: [Service.Get], the lookup of the record
    stored under a name. *)
Definition ServiceGet (keyname : string) : M stored := Get keyname.

(** Modelled from the spec: [AddToKeyword].  "[Get] the [KeywordRecord]
    if present (else create empty), append [objectID] only if absent,
    [Put] back." *)
Definition AddToKeyword (keyword : string) (objectID : UUID) : M unit :=
  let* has := Has keyword in
  let* record :=
    (if has : bool then
       let* b := Get keyword in
       match unmarshalKeyword b with
       | Some k => ret k
       | None => fail ErrUnmarshal
       end
     else ret (mkKeyword keyword [])) in
  let ids := LensIdentifiers record in
  let ids' := if bool_decide (objectID ∈ ids) then ids
              else (ids ++ [objectID])%list in
  Put keyword (KeywordJSON (mkKeyword (KeywordName record) ids')).

(** Modelled from the spec: [RemoveFromKeyword].  "[Get], filter out
    [objectID], [Put] back; no-op if record absent or [objectID]
    absent." *)
Definition RemoveFromKeyword (keyword : string) (objectID : UUID) : M unit :=
  let* has := Has keyword in
  if has : bool then
    let* b := Get keyword in
    match unmarshalKeyword b with
    | None => fail ErrUnmarshal
    | Some record =>
        let ids := LensIdentifiers record in
        if bool_decide (objectID ∈ ids) then
          Put keyword (KeywordJSON (mkKeyword (KeywordName record)
                         (filter (fun i => i ≠ objectID) ids)))
        else ret tt
    end
  else ret tt.

(** Modelled from the spec: [PutObject].  "Serializes and stores Object
    under key [obj.id]; stores [NameIndexRecord] under key [obj.name]." *)
Definition PutObject (obj : Object) : M unit :=
  let* _ := Put (LensID obj) (ObjectJSON obj) in
  Put (Name obj) (IDText (LensID obj)).

Fixpoint forEach (f : string → M unit) (l : list string) : M unit :=
  match l with
  | [] => ret tt
  | x :: rest => let* _ := f x in forEach f rest
  end.

(** Modelled from the spec: [Service.Update].  "Reuse existing [id];
    compute [removed = priorSummary − newSummary] and [added =
    newSummary − priorSummary]; for each keyword in [removed],
    [RemoveFromKeyword]; for each keyword in [added], [AddToKeyword];
    overwrite the Object's [metadata]; [PutObject]."  The prior summary
    is that of the object stored under the id; the answer carries the
    id. *)
Definition Update (meta : MetaData) (id : UUID) (name : string)
    : M IndexOperationResponse :=
  let* b := Get id in
  match b with
  | ObjectJSON prior =>
      let priorSummary := Summary (Meta prior) in
      let newSummary := Summary meta in
      let removed := filter (fun k => k ∉ newSummary) priorSummary in
      let added := filter (fun k => k ∉ priorSummary) newSummary in
      let* _ := forEach (fun k => RemoveFromKeyword k id) removed in
      let* _ := forEach (fun k => AddToKeyword k id) added in
      let* _ := PutObject (mkObject id name meta) in
      ret (mkIndexOperationResponse "" id)
  | _ => fail ErrNotFound
  end.

End Lens.

(** ** package server *)

(** [uuid.FromBytes(b)] of gofrs/uuid: the identifier made of the sixteen
    raw bytes of [b], and an error for a slice of any other length.  None
    of the byte strings [Store] writes has sixteen bytes: the text of a
    uuid, [id.String()], has thirty-six, the JSON of an object contains
    that text, and the JSON of a keyword spells the names of its two
    fields. *)
Definition FromBytes (b : stored) : option UUID :=
  match b with
  | IDText _ => None
  | ObjectJSON _ => None
  | KeywordJSON _ => None
  end.

Record IndexRequest := mkIndexRequest {
  ReqType : string;
  Identifier : string;
  Reindex : bool
}.

Record IndexResponse := mkIndexResponse {
  Id : string;
  Keywords : list string
}.

Record ResponseObject := mkResponseObject {
  RespName : string;
  RespMimeType : string;
  RespCategory : string
}.

(** [if err != nil { return nil, e }]: the error is replaced. *)
Definition orFail {A} (m : M A) (e : error) : M A :=
  fun s => match m s with
           | (Ok a, s') => (Ok a, s')
           | (Err _, s') => (Err e, s')
           end.

Section Server.

Variable c : Collaborators.

(** [APIServer.Index]. *)
Definition Index (req : IndexRequest) : M IndexResponse :=
  if String.eqb (ReqType req) "ipld" then
    let objectID := Identifier req in
    let reindex := Reindex req in
    let* metaData := MagnifyReindex c objectID reindex in
    let* resp :=
      (if negb reindex then Store (NewV4 c) (DagPut c) metaData objectID
       else
         let* b := orFail (ServiceGet objectID) ErrFindID in
         match FromBytes b with
         | None => fail ErrInvalidUUID
         | Some id => Update metaData id objectID
         end) in
    ret (mkIndexResponse (RespLensID resp) (Summary metaData))
  else fail ErrInvalidDataType.

(** [APIServer.Search].  [make([]*pbresp.Object, len(objects))] is a
    slice of [len(objects)] nil pointers, and the loop appends to it:
    a nil pointer is [None]. *)
Definition Search (keywords : list string) : M (list (option ResponseObject)) :=
  let* objects := ServiceKeywordSearch c keywords in
  let objs := replicate (List.length objects) None in
  ret (foldl (fun objs v =>
                (objs ++ [Some (mkResponseObject (Name v)
                                  (MimeType (Meta v))
                                  (Category (Meta v)))])%list)
             objs objects).

End Server.

(** * Definitions for the statements

    The loops of [Store] and of the reconciliation as functions on the
    map of the datastore, the predicates of the statements, and closed
    inputs on which the code is evaluated. *)

(** Collaborators for the examples: every fetch answers, the detected
    content type is [mime], the ranking returns the stored texts followed
    by [words], the uuid drawn is [id]. *)
Definition example (id mime : string) (words : list string) : Collaborators :=
  mkCollaborators
    (fun h => Some ("contents of " ++ h))
    (fun _ => mime)
    (fun contents => Some ("text of " ++ contents))
    (fun corpus _ => (corpus ++ words)%list)
    (fun _ => Some "lighthouse")
    (Some id)
    (fun _ => Some "bafy-object")
    (fun _ _ => Some []).

Definition exampleDag : Object → option string := fun _ => Some "bafy-object".

(** What one pass of the loop body does to the value under keyword [v]. *)
Definition addId (id : UUID) (v : string) (o : option stored) : option stored :=
  match o with
  | None => Some (KeywordJSON (mkKeyword v [id]))
  | Some b =>
      match unmarshalKeyword b with
      | None => Some b
      | Some keyword =>
          if detected id (LensIdentifiers keyword) then Some b
          else Some (KeywordJSON (mkKeyword (KeywordName keyword)
                                    (LensIdentifiers keyword ++ [id])))
      end
  end.

(** The loop as a function on the map: the keywords taken in order. *)
Definition addKeyword (id : UUID) (v : string) (m : gmap string stored)
    : gmap string stored :=
  match addId id v (m !! v) with
  | Some b => <[v := b]> m
  | None => m
  end.

Fixpoint addKeywords (id : UUID) (vs : list string) (m : gmap string stored)
    : gmap string stored :=
  match vs with
  | [] => m
  | v :: rest => addKeywords id rest (addKeyword id v m)
  end.

(** How far a call of [Store] got. *)
Inductive progress :=
| InKeywords (processed remaining : list string)  (* stopped in the loop *)
| AtName                                           (* [Put(name, ...)] failed *)
| AtObject                                         (* [Put(id.String(), ...)] failed *)
| Written.                                         (* both records are written *)

Definition storeUpTo (id : UUID) (meta : MetaData) (name : string)
    (p : progress) (m : gmap string stored) : gmap string stored :=
  match p with
  | InKeywords processed _ => addKeywords id processed m
  | AtName => addKeywords id (Summary meta) m
  | AtObject => <[name := IDText id]> (addKeywords id (Summary meta) m)
  | Written =>
      <[id := ObjectJSON (mkObject id name meta)]>
        (<[name := IDText id]> (addKeywords id (Summary meta) m))
  end.

Definition stoppedInLoop (meta : MetaData) (p : progress) : Prop :=
  match p with
  | InKeywords processed remaining =>
      Summary meta = (processed ++ remaining)%list ∧ remaining ≠ []
  | _ => True
  end.

Definition keywordsNoDup (m : gmap string stored) : Prop :=
  ∀ k keyword, m !! k = Some (KeywordJSON keyword) →
               NoDup (LensIdentifiers keyword).

(** One call of [Store] with what its collaborators answer. *)
Record storeCall := mkStoreCall {
  callNewV4 : option UUID;
  callDagPut : Object → option string;
  callMeta : MetaData;
  callName : string
}.

Fixpoint runStores (l : list storeCall) (s : Service) : Service :=
  match l with
  | [] => s
  | x :: rest =>
      runStores rest
        (snd (Store (callNewV4 x) (callDagPut x) (callMeta x) (callName x) s))
  end.

Definition oceanMeta (mime : string) : MetaData :=
  mkMetaData ["ocean"; "wave"] mime "document".

(** Two services that differ in the record of calls only. *)
Definition agree (s s' : Service) : Prop :=
  ss s = ss s' ∧ ss_faults s = ss_faults s' ∧ ta s = ta s'.

Definition indexRequest (name : string) (reindex : bool) : IndexRequest :=
  mkIndexRequest "ipld" name reindex.

(** The datastore answers the next operation. *)
Definition answers (s : Service) : Prop := head (ss_faults s) ≠ Some true.

Definition twoKeywords : MetaData :=
  mkMetaData ["x"; "y"] "text/plain" "document".

(** The third datastore operation fails: the [Has] of the second keyword. *)
Definition thirdFails : Service := mkService ∅ [false; false; true] [] [].

(** The characters of [s] before the first one that satisfies [f]. *)
Fixpoint upTo (f : ascii → bool) (s : string) : string :=
  match s with
  | EmptyString => ""
  | String r rest => if f r then "" else String r (upTo f rest)
  end.

(** "type/subtype" of "type/subtype; parameters". *)
Definition essence (contentType : string) : string := upTo isSemicolon contentType.

(** "type" of "type/subtype". *)
Definition topLevel (contentType : string) : string := upTo isSlash contentType.

(** The states a service goes through: a new service, whatever the
    datastore operations that are going to fail, then calls of [Magnify]
    and of [Store]. *)
Inductive reachable : Service → Prop :=
| reach_new faults : reachable (mkService ∅ faults [] [])
| reach_Magnify c h s : reachable s → reachable (snd (Magnify c h s))
| reach_Store newV4 dag meta name s :
    reachable s → reachable (snd (Store newV4 dag meta name s)).

Definition toResponse (v : Object) : ResponseObject :=
  mkResponseObject (Name v) (MimeType (Meta v)) (Category (Meta v)).

(** A keyword search for the examples: the objects whose identifiers the
    record of the first keyword holds. *)
Definition lookupFirstKeyword (m : gmap string stored) (keywords : list string)
    : option (list Object) :=
  match keywords with
  | [] => Some []
  | k :: _ =>
      match m !! k with
      | Some (KeywordJSON keyword) =>
          Some (omap (fun id => match m !! id with
                                | Some (ObjectJSON o) => Some o
                                | _ => None
                                end) (LensIdentifiers keyword))
      | _ => Some []
      end
  end.

Definition lighthouseService : Collaborators :=
  mkCollaborators
    (fun h => Some ("contents of " ++ h))
    (fun _ => "image/jpeg")
    (fun _ => None)
    (fun _ _ => [])
    (fun _ => Some "lighthouse")
    (Some "id-1")
    exampleDag
    lookupFirstKeyword.

Definition holdsIDText (o : option stored) : Prop := ∃ i, o = Some (IDText i).

(** The reindex branch of [Index] ([else] of [if !reindex]): what [Index]
    does with the metadata of [Magnify] when the flag is set. *)
Definition reindexBranch (metaData : MetaData) (objectID : string)
    : M IndexOperationResponse :=
  let* b := orFail (ServiceGet objectID) ErrFindID in
  match FromBytes b with
  | None => fail ErrInvalidUUID
  | Some id => Update metaData id objectID
  end.

(** Collaborators whose summarizer returns [words] whatever the text. *)
Definition classifiedAs (id : string) (words : list string) : Collaborators :=
  mkCollaborators
    (fun h => Some ("contents of " ++ h))
    (fun _ => "text/plain; charset=utf-8")
    (fun _ => None)
    (fun _ _ => words)
    (fun _ => None)
    (Some id)
    exampleDag
    lookupFirstKeyword.

(** The datastore answers the next two operations. *)
Definition answersTwice (s : Service) : Prop :=
  answers s ∧ head (tail (ss_faults s)) ≠ Some true.

(** Does a character of [s] satisfy [f]? *)
Fixpoint anyChar (f : ascii → bool) (s : string) : bool :=
  match s with
  | EmptyString => false
  | String r rest => f r || anyChar f rest
  end.

(** The calls that write to the datastore. *)
Definition isPut (x : call) : bool :=
  match x with
  | CallPut _ => true
  | _ => false
  end.

(** The calls that reach the datastore. *)
Definition isDatastoreCall (x : call) : bool :=
  match x with
  | CallHas _ | CallGet _ | CallPut _ => true
  | _ => false
  end.

(** Collaborators for the examples: the fetch answers or not, the PDF
    reader and the image classifier fail, no uuid is drawn. *)
Definition failing (fetch : bool) (mime : string) : Collaborators :=
  mkCollaborators
    (fun h => if fetch then Some ("contents of " ++ h) else None)
    (fun _ => mime)
    (fun _ => None)
    (fun _ _ => [])
    (fun _ => None)
    None
    exampleDag
    lookupFirstKeyword.

(** * Properties *)

(** ** Evaluation on closed inputs *)

(** Evaluation of the code on a closed input, conjunct by conjunct. *)
Ltac evaluate :=
  repeat match goal with |- _ ∧ _ => split end;
  vm_compute; reflexivity.

Lemma not_elem_of_eval (x : string) (l : list string) :
  bool_decide (x ∈ l) = false → x ∉ l.
Proof. apply bool_decide_eq_false. Qed.

Lemma neq_eval (a b : string) : String.eqb a b = false → a ≠ b.
Proof. apply String.eqb_neq. Qed.

(** ** How the primitives run *)

Lemma bind_run {A B} (m : M A) (k : A → M B) s :
  bind m k s = match m s with
               | (Ok a, s') => k a s'
               | (Err e, s') => (Err e, s')
               end.
Proof. reflexivity. Qed.

Lemma Has_run k s :
  ∃ s', ss s' = ss s ∧ ta s' = ta s ∧
        (Has k s = (Err ErrStore, s') ∨
         Has k s = (Ok (bool_decide (is_Some (ss s !! k))), s')).
Proof.
  unfold Has, bind, log, fault, fail; simpl.
  destruct (ss_faults s) as [|[] fs]; simpl;
    eexists (mkService _ _ _ _); simpl;
    (split; [reflexivity|split; [reflexivity|]]);
    first [left; reflexivity | right; reflexivity].
Qed.

Lemma Get_run k s :
  ∃ s', ss s' = ss s ∧ ta s' = ta s ∧
        ((∃ e, Get k s = (Err e, s')) ∨
         (∃ b, ss s !! k = Some b ∧ Get k s = (Ok b, s'))).
Proof.
  unfold Get, bind, log, fault, fail; simpl.
  destruct (ss_faults s) as [|[] fs]; simpl;
    destruct (ss s !! k) eqn:E; simpl;
    eexists (mkService _ _ _ _); simpl;
    (split; [reflexivity|split; [reflexivity|]]);
    first [left; eexists; reflexivity
          | right; eexists; split; reflexivity].
Qed.

Lemma Put_run k b s :
  ∃ s', ta s' = ta s ∧
        ((Put k b s = (Err ErrStore, s') ∧ ss s' = ss s) ∨
         (Put k b s = (Ok tt, s') ∧ ss s' = <[k := b]> (ss s))).
Proof.
  unfold Put, bind, log, fault, fail; simpl.
  destruct (ss_faults s) as [|[] fs]; simpl;
    eexists (mkService _ _ _ _); simpl;
    (split; [reflexivity|]);
    first [left; split; reflexivity | right; split; reflexivity].
Qed.

Lemma detected_spec id ids : detected id ids = bool_decide (id ∈ ids).
Proof.
  induction ids as [|v rest IH]; cbn [detected].
  - symmetry. apply bool_decide_eq_false_2, not_elem_of_nil.
  - destruct (String.eqb_spec v id) as [->|Hne].
    + symmetry. apply bool_decide_eq_true_2. left.
    + rewrite IH. apply bool_decide_ext. rewrite elem_of_cons.
      split; [tauto|]. intros [->|]; [done|tauto].
Qed.

(** ** The keyword loop of [Store], key by key *)

Lemma addId_idem id v o : addId id v (addId id v o) = addId id v o.
Proof.
  unfold addId. destruct o as [b|]; simpl.
  - destruct (unmarshalKeyword b) as [kw|] eqn:E; [|by rewrite E].
    destruct (detected id (LensIdentifiers kw)) eqn:D.
    + by rewrite E, D.
    + simpl. rewrite detected_spec.
      rewrite bool_decide_eq_true_2; [done|].
      apply elem_of_app; right; left.
  - rewrite String.eqb_refl. done.
Qed.

Ltac step_with L :=
  let s1 := fresh "s" in
  let Hss := fresh "Hss" in
  let Hta := fresh "Hta" in
  let E := fresh "E" in
  rewrite bind_run;
  lazymatch L with
  | Put_run _ _ _ => destruct L as (s1 & Hta & [[E Hss]|[E Hss]]); rewrite E
  | Get_run _ _ => destruct L as (s1 & Hss & Hta & [[? E]|(? & ? & E)]); rewrite E
  | _ => destruct L as (s1 & Hss & Hta & [E|E]); rewrite E
  end.

Lemma addKeyword_lookup id v m k :
  addKeyword id v m !! k = if decide (k = v) then addId id v (m !! v) else m !! k.
Proof.
  unfold addKeyword.
  destruct (addId id v (m !! v)) as [b|] eqn:E.
  - destruct (decide (k = v)) as [->|Hne].
    + by rewrite lookup_insert_eq.
    + by rewrite lookup_insert_ne.
  - unfold addId in E. destruct (m !! v) as [b|]; [|done].
    destruct (unmarshalKeyword b) as [kw|]; [|done].
    by destruct (detected id (LensIdentifiers kw)).
Qed.

Lemma addKeywords_lookup id vs : ∀ m k,
  addKeywords id vs m !! k =
  if bool_decide (k ∈ vs) then addId id k (m !! k) else m !! k.
Proof.
  induction vs as [|v rest IH]; intros m k; cbn [addKeywords].
  - rewrite bool_decide_eq_false_2; [done|apply not_elem_of_nil].
  - rewrite IH, addKeyword_lookup.
    destruct (decide (k = v)) as [->|Hne].
    + rewrite (bool_decide_eq_true_2 (v ∈ v :: rest)) by left.
      case_bool_decide; [apply addId_idem|done].
    + rewrite (bool_decide_ext (k ∈ v :: rest) (k ∈ rest)); [done|].
      rewrite elem_of_cons. tauto.
Qed.

(** However the loop ends, the datastore is what the loop body made of it
    over the keywords it got through, in order; when the loop ends well it
    got through all of them, and none of these held the text of a uuid
    (decoding it fails).  The text analyzer is not touched. *)
Lemma storeKeywords_run id summary : ∀ s r s',
  storeKeywords id summary s = (r, s') →
  ta s' = ta s ∧
  ∃ processed remaining,
    summary = (processed ++ remaining)%list ∧
    ss s' = addKeywords id processed (ss s) ∧
    (r = Ok tt → remaining = []) ∧
    (remaining = [] → r = Ok tt) ∧
    (∀ k i, k ∈ processed → ss s !! k ≠ Some (IDText i)).
Proof.
  induction summary as [|v rest IH]; intros s r s' Hrun; simpl in Hrun.
  - inversion Hrun; subst. split; [done|]. exists [], [].
    repeat split; try done. intros k i Hk. by apply not_elem_of_nil in Hk.
  - assert (Hstop : ∀ s1, ss s1 = ss s → ta s1 = ta s → ∀ e,
              (r, s') = (Err e, s1) →
              ta s' = ta s ∧ ∃ processed remaining,
                v :: rest = (processed ++ remaining)%list ∧
                ss s' = addKeywords id processed (ss s) ∧
                (r = Ok tt → remaining = []) ∧ (remaining = [] → r = Ok tt) ∧
                (∀ k i, k ∈ processed → ss s !! k ≠ Some (IDText i))).
    { intros s1 Hss Hta e [= -> ->]. split; [done|].
      exists [], (v :: rest). repeat split; try done.
      intros k i Hk. by apply not_elem_of_nil in Hk. }
    assert (Hgo : ∀ s1, ss s1 = addKeyword id v (ss s) → ta s1 = ta s →
              (∀ i, ss s !! v ≠ Some (IDText i)) →
              storeKeywords id rest s1 = (r, s') →
              ta s' = ta s ∧ ∃ processed remaining,
                v :: rest = (processed ++ remaining)%list ∧
                ss s' = addKeywords id processed (ss s) ∧
                (r = Ok tt → remaining = []) ∧ (remaining = [] → r = Ok tt) ∧
                (∀ k i, k ∈ processed → ss s !! k ≠ Some (IDText i))).
    { intros s1 Hss Hta Hv Hrest.
      destruct (IH _ _ _ Hrest) as (Hta' & p & q & -> & Hs' & Hok & Hko & Hp).
      split; [congruence|]. exists (v :: p), q. simpl.
      rewrite <- Hss. repeat split; try done.
      intros k i Hk. destruct (decide (k = v)) as [->|Hne]; [apply Hv|].
      apply elem_of_cons in Hk as [?|Hk]; [done|].
      specialize (Hp k i Hk). rewrite Hss, addKeyword_lookup in Hp.
      by rewrite decide_False in Hp. }
    revert Hrun. step_with (Has_run v s); [intros H; symmetry in H; eauto|].
    destruct (ss s !! v) as [b0|] eqn:Ev.
    + rewrite bool_decide_eq_true_2 by eauto. simpl.
      step_with (Get_run v s0).
      { intros H'; symmetry in H'. eapply Hstop; [| |exact H']; congruence. }
      assert (x = b0) as -> by congruence.
      destruct (unmarshalKeyword b0) as [kw|] eqn:Eu.
      2:{ intros H'; symmetry in H'. eapply Hstop; [| |exact H']; congruence. }
      destruct (detected id (LensIdentifiers kw)) eqn:Ed.
      * apply Hgo; [|congruence|].
        -- unfold addKeyword, addId. rewrite Ev, Eu, Ed.
           rewrite insert_id by done. congruence.
        -- intros i [= ->]. discriminate.
      * step_with (Put_run v (KeywordJSON (mkKeyword (KeywordName kw)
                     (LensIdentifiers kw ++ [id]))) s1).
        { intros H'; symmetry in H'. eapply Hstop; [| |exact H']; congruence. }
        apply Hgo; [|congruence|].
        -- unfold addKeyword, addId. rewrite Ev, Eu, Ed. congruence.
        -- intros i [= ->]. discriminate.
    + rewrite bool_decide_eq_false_2 by (intros [? ?]; congruence). simpl.
      step_with (Put_run v (KeywordJSON (mkKeyword v [id])) s0).
      { intros H'; symmetry in H'. eapply Hstop; [| |exact H']; congruence. }
      apply Hgo; [|congruence|discriminate].
      unfold addKeyword, addId. rewrite Ev. congruence.
Qed.

(** ** [Store], stage by stage *)

Lemma Store_run id dag meta name s r s' :
  Store (Some id) dag meta name s = (r, s') →
  ta s' = ta s ∧
  ∃ p, ss s' = storeUpTo id meta name p (ss s) ∧
       stoppedInLoop meta p ∧
       (∀ resp, r = Ok resp → p = Written ∧ RespLensID resp = id).
Proof.
  unfold Store. rewrite bind_run.
  destruct (storeKeywords id (Summary meta) s) as [r0 s0] eqn:Eloop.
  destruct (storeKeywords_run _ _ _ _ _ Eloop)
    as (Hta0 & processed & remaining & Hsum & Hss0 & Hok & Hko & _).
  destruct r0 as [[]|e].
  - rewrite (Hok eq_refl), app_nil_r in Hsum. subst processed.
    step_with (Put_run name (IDText id) s0).
    { intros [= <- <-]. split; [congruence|].
      exists AtName. simpl. split; [congruence|]. split; [done|]. discriminate. }
    step_with (Put_run id (ObjectJSON (mkObject id name meta)) s1).
    { intros [= <- <-]. split; [congruence|].
      exists AtObject. simpl. split; [congruence|]. split; [done|]. discriminate. }
    destruct (dag (mkObject id name meta)) as [hash|]; intros [= <- <-];
      (split; [congruence|]); exists Written; simpl;
      (split; [congruence|]); (split; [done|]); intros resp [= <-]; done.
  - intros [= <- <-]. split; [done|].
    exists (InKeywords processed remaining). simpl.
    split; [done|]. split; [|discriminate].
    split; [done|]. intros ->. by specialize (Hko eq_refl).
Qed.

(** What a call of [Store] that returns a response leaves in the store. *)
Lemma Store_ok_lookup id dag meta name s resp s' k :
  Store (Some id) dag meta name s = (Ok resp, s') →
  ss s' !! k =
    if decide (k = id) then Some (ObjectJSON (mkObject id name meta))
    else if decide (k = name) then Some (IDText id)
    else if bool_decide (k ∈ Summary meta) then addId id k (ss s !! k)
    else ss s !! k.
Proof.
  intros Hrun. destruct (Store_run _ _ _ _ _ _ _ Hrun) as (_ & p & Hss & _ & Hp).
  destruct (Hp _ eq_refl) as [-> _]. rewrite Hss. simpl.
  destruct (decide (k = id)) as [->|Hid]; [by rewrite lookup_insert_eq|].
  rewrite lookup_insert_ne by done.
  destruct (decide (k = name)) as [->|Hname]; [by rewrite lookup_insert_eq|].
  rewrite lookup_insert_ne by done. apply addKeywords_lookup.
Qed.

Lemma Store_no_uuid dag meta name s :
  Store None dag meta name s = (Err ErrUUID, s).
Proof. reflexivity. Qed.

(** ** What a successful [Store] leaves under its keywords *)

Lemma addId_member id v o :
  (∀ i, o ≠ Some (IDText i)) →
  ∃ keyword, addId id v o = Some (KeywordJSON keyword) ∧
             id ∈ LensIdentifiers keyword.
Proof.
  intros Ho. unfold addId. destruct o as [[kw|o|i]|]; simpl.
  - destruct (detected id (LensIdentifiers kw)) eqn:Ed.
    + rewrite detected_spec in Ed. apply bool_decide_eq_true in Ed. eauto.
    + eexists; split; [done|]. simpl. apply elem_of_app. right. left.
  - eexists; split; [done|]. simpl. left.
  - by destruct (Ho i).
  - eexists; split; [done|]. simpl. left.
Qed.

Lemma addId_keeps id v kw0 :
  ∃ keyword, addId id v (Some (KeywordJSON kw0)) = Some (KeywordJSON keyword) ∧
             ∀ x, x ∈ LensIdentifiers kw0 → x ∈ LensIdentifiers keyword.
Proof.
  unfold addId. simpl. destruct (detected id (LensIdentifiers kw0)).
  - eauto.
  - eexists; split; [done|]. simpl. intros x Hx. apply elem_of_app. by left.
Qed.

Lemma Store_ok_summary id dag meta name s resp s' :
  Store (Some id) dag meta name s = (Ok resp, s') →
  ∀ k i, k ∈ Summary meta → ss s !! k ≠ Some (IDText i).
Proof.
  unfold Store. rewrite bind_run.
  destruct (storeKeywords id (Summary meta) s) as [r0 s0] eqn:Eloop.
  destruct (storeKeywords_run _ _ _ _ _ Eloop)
    as (_ & processed & remaining & Hsum & _ & Hok & _ & Hp).
  destruct r0 as [[]|e]; [|discriminate]. intros _.
  rewrite (Hok eq_refl), app_nil_r in Hsum. by subst processed.
Qed.

Lemma Store_ok_keywords id dag meta name s resp s' k :
  Store (Some id) dag meta name s = (Ok resp, s') →
  k ∈ Summary meta → k ≠ name → k ≠ id →
  ∃ keyword, ss s' !! k = Some (KeywordJSON keyword) ∧
             id ∈ LensIdentifiers keyword.
Proof.
  intros Hrun Hk Hname Hid.
  rewrite (Store_ok_lookup _ _ _ _ _ _ _ k Hrun).
  rewrite !decide_False by done. rewrite bool_decide_eq_true_2 by done.
  apply addId_member. intros i. by apply (Store_ok_summary _ _ _ _ _ _ _ Hrun).
Qed.

(** A later [Store] takes no identifier out of a keyword record, as long
    as its name and its identifier are not that keyword. *)
Lemma Store_ok_keeps id dag meta name s resp s' k kw0 :
  Store (Some id) dag meta name s = (Ok resp, s') →
  ss s !! k = Some (KeywordJSON kw0) → k ≠ name → k ≠ id →
  ∃ keyword, ss s' !! k = Some (KeywordJSON keyword) ∧
             ∀ x, x ∈ LensIdentifiers kw0 → x ∈ LensIdentifiers keyword.
Proof.
  intros Hrun Hk Hname Hid.
  rewrite (Store_ok_lookup _ _ _ _ _ _ _ k Hrun).
  rewrite !decide_False by done. rewrite Hk.
  case_bool_decide; [apply addId_keeps|eauto].
Qed.

(** ** I4: no identifier twice in a keyword record *)

Lemma addId_NoDup id v o keyword :
  (∀ kw, o = Some (KeywordJSON kw) → NoDup (LensIdentifiers kw)) →
  addId id v o = Some (KeywordJSON keyword) →
  NoDup (LensIdentifiers keyword).
Proof.
  intros Ho. unfold addId. destruct o as [b|].
  - destruct (unmarshalKeyword b) as [kw|] eqn:Eu; [|intros [= ->]; eauto].
    destruct (detected id (LensIdentifiers kw)) eqn:Ed; [intros [= ->]; eauto|].
    intros [= <-]. simpl.
    rewrite detected_spec in Ed. apply bool_decide_eq_false in Ed.
    apply NoDup_app. repeat split.
    + destruct b as [kw0|o|i]; simpl in Eu; inversion Eu; subst.
      * by apply Ho.
      * apply NoDup_nil_2.
    + intros x Hx Hx'. apply list_elem_of_singleton in Hx'. by subst.
    + apply NoDup_singleton.
  - intros [= <-]. simpl. apply NoDup_singleton.
Qed.

Lemma addKeywords_NoDup id vs m :
  keywordsNoDup m → keywordsNoDup (addKeywords id vs m).
Proof.
  intros Hm k keyword. rewrite addKeywords_lookup.
  case_bool_decide; [|apply Hm].
  apply addId_NoDup. intros kw. apply Hm.
Qed.

Lemma insert_other_NoDup k b m :
  (∀ kw, b ≠ KeywordJSON kw) →
  keywordsNoDup m → keywordsNoDup (<[k := b]> m).
Proof.
  intros Hb Hm k' keyword.
  destruct (decide (k = k')) as [->|Hne].
  - rewrite lookup_insert_eq. intros [= ->]. by destruct (Hb keyword).
  - rewrite lookup_insert_ne by done. apply Hm.
Qed.

(** [Store] keeps I4, whatever its outcome. *)
Lemma Store_NoDup newV4 dag meta name s :
  keywordsNoDup (ss s) →
  keywordsNoDup (ss (snd (Store newV4 dag meta name s))).
Proof.
  intros Hs. destruct newV4 as [id|]; [|done].
  destruct (Store (Some id) dag meta name s) as [r s'] eqn:Hrun. simpl.
  destruct (Store_run _ _ _ _ _ _ _ Hrun) as (_ & p & -> & _ & _).
  destruct p; simpl;
    repeat (apply insert_other_NoDup; [discriminate|]);
    by apply addKeywords_NoDup.
Qed.

Lemma runStores_NoDup l : ∀ s,
  keywordsNoDup (ss s) → keywordsNoDup (ss (runStores l s)).
Proof.
  induction l as [|x rest IH]; intros s Hs; simpl; [done|].
  by apply IH, Store_NoDup.
Qed.

(** C2 (I4, keyword dedup), as the code has it.  After any sequence of
    calls of [Store] on a new service, whichever datastore operations
    fail, no keyword record holds an identifier twice.  And when two
    objects with different identifiers are stored one after the other,
    both with the keyword "ocean" in their summary, in a store that had
    nothing under "ocean" (the identifiers and the name of the second
    object being other strings than "ocean"), the record under "ocean"
    holds exactly the two identifiers, each once; the statement covers
    both orders of the two calls. *)
Theorem Store_keyword_ids_unique :
  (∀ l faults,
     keywordsNoDup (ss (runStores l (mkService ∅ faults [] [])))) ∧
  (∀ s id1 id2 dag1 dag2 meta1 meta2 name1 name2 resp1 resp2 s1 s2,
     ss s !! "ocean" = None →
     "ocean" ∈ Summary meta1 → "ocean" ∈ Summary meta2 →
     id1 ≠ id2 →
     name2 ≠ "ocean" → id1 ≠ "ocean" → id2 ≠ "ocean" →
     Store (Some id1) dag1 meta1 name1 s = (Ok resp1, s1) →
     Store (Some id2) dag2 meta2 name2 s1 = (Ok resp2, s2) →
     ss s2 !! "ocean" = Some (KeywordJSON (mkKeyword "ocean" [id1; id2])) ∧
     NoDup [id1; id2]).
Proof.
  split.
  - intros l faults. apply runStores_NoDup. simpl. intros k kw.
    by rewrite lookup_empty.
  - intros s id1 id2 dag1 dag2 meta1 meta2 name1 name2 resp1 resp2 s1 s2
      Hnone Hin1 Hin2 Hids Hn2 Hi1 Hi2 Hrun1 Hrun2.
    assert (Hn1 : name1 ≠ "ocean").
    { intros ->.
      apply (Store_ok_summary _ _ _ _ _ _ _ Hrun2 "ocean" id1 Hin2).
      rewrite (Store_ok_lookup _ _ _ _ _ _ _ "ocean" Hrun1).
      rewrite decide_False by congruence. by rewrite decide_True. }
    split.
    + rewrite (Store_ok_lookup _ _ _ _ _ _ _ "ocean" Hrun2).
      rewrite (Store_ok_lookup _ _ _ _ _ _ _ "ocean" Hrun1).
      repeat (rewrite decide_False by congruence).
      rewrite !bool_decide_eq_true_2 by done.
      rewrite Hnone. simpl.
      destruct (String.eqb_spec id1 id2); [done|]. reflexivity.
    + apply NoDup_cons. split; [|apply NoDup_singleton].
      intros H. apply list_elem_of_singleton in H. done.
Qed.

Lemma Store_keyword_ids_unique_witness :
  let dag := fun _ : Object => Some "hash" in
  let r1 := Store (Some "id-1") dag (oceanMeta "text/plain") "Qm1" NewService in
  let r2 := Store (Some "id-2") dag (oceanMeta "text/html") "Qm2" (snd r1) in
  ss (snd r2) !! "ocean" = Some (KeywordJSON (mkKeyword "ocean" ["id-1"; "id-2"])) ∧
  NoDup ["id-1"; "id-2"].
Proof.
  intros dag r1 r2.
  apply (proj2 Store_keyword_ids_unique NewService "id-1" "id-2" dag dag
           (oceanMeta "text/plain") (oceanMeta "text/html") "Qm1" "Qm2"
           (mkIndexOperationResponse "hash" "id-1")
           (mkIndexOperationResponse "hash" "id-2")
           (snd r1) (snd r2));
    [vm_compute; reflexivity
    |left
    |left
    |exact (neq_eval "id-1" "id-2" eq_refl)
    |exact (neq_eval "Qm2" "ocean" eq_refl)
    |exact (neq_eval "id-1" "ocean" eq_refl)
    |exact (neq_eval "id-2" "ocean" eq_refl)
    |vm_compute; reflexivity
    |vm_compute; reflexivity].
Defined.

(** The example of C2 as it is worded fails when the second object is
    named "ocean": its name record is written over the keyword record,
    and no keyword record under "ocean" holds the two identifiers. *)
Lemma Store_keyword_ids_unique_counterexample :
  let r1 := Store (Some "id-1") exampleDag (oceanMeta "text/plain") "Qm1"
              NewService in
  let r2 := Store (Some "id-2") exampleDag (oceanMeta "text/html") "ocean"
              (snd r1) in
  fst r1 = Ok (mkIndexOperationResponse "bafy-object" "id-1") ∧
  fst r2 = Ok (mkIndexOperationResponse "bafy-object" "id-2") ∧
  ss (snd r1) !! "ocean" = Some (KeywordJSON (mkKeyword "ocean" ["id-1"])) ∧
  ss (snd r2) !! "ocean" = Some (IDText "id-2") ∧
  ¬ (∃ keyword, ss (snd r2) !! "ocean" = Some (KeywordJSON keyword)).
Proof.
  intros r1 r2.
  assert (Ho : ss (snd r2) !! "ocean" = Some (IDText "id-2"))
    by (vm_compute; reflexivity).
  split; [vm_compute; reflexivity|]. split; [vm_compute; reflexivity|].
  split; [vm_compute; reflexivity|]. split; [exact Ho|].
  intros (keyword & Hk). rewrite Ho in Hk. discriminate.
Qed.

(** ** [Magnify]: what it touches *)

Lemma agree_refl s : agree s s.
Proof. by repeat split. Qed.

Ltac magnify_unfold :=
  unfold Magnify, examine, classify, Summarize, Clear, liftOption, Has,
    bind, log, fault, fail, ret; simpl.

Ltac magnify_cases c h :=
  repeat match goal with
    | |- context [ExtractContents c h] =>
        destruct (ExtractContents c h) as [?contents|]; simpl
    | |- context [FieldsFunc ?f ?x] =>
        destruct (FieldsFunc f x) as [|? ?]; simpl
    | |- context [String.eqb ?a ?b] => destruct (String.eqb a b); simpl
    | |- context [GetPlainText c ?x] =>
        destruct (GetPlainText c x) as [?text|]; simpl
    | |- context [ClassifyImage c ?x] =>
        destruct (ClassifyImage c x) as [?keyword|]; simpl
    end.

(** The part of [Magnify] after the guard reads and writes nothing in the
    datastore; it leaves the text analyzer empty when it returns metadata
    and as it found it when it returns an error. *)
Lemma examine_run c h s :
  ss (snd (examine c h s)) = ss s ∧
  ss_faults (snd (examine c h s)) = ss_faults s ∧
  (∀ r, fst (examine c h s) = Ok r → ta (snd (examine c h s)) = []) ∧
  (∀ e, fst (examine c h s) = Err e → ta (snd (examine c h s)) = ta s).
Proof.
  magnify_unfold. magnify_cases c h;
    repeat split; intros; try discriminate; reflexivity.
Qed.

Lemma examine_agree c h s s' :
  agree s s' →
  fst (examine c h s) = fst (examine c h s') ∧
  agree (snd (examine c h s)) (snd (examine c h s')).
Proof.
  intros (Hss & Hf & Hta). unfold agree.
  magnify_unfold. rewrite Hta. magnify_cases c h; by repeat split.
Qed.

Lemma Magnify_run c h s :
  ss (snd (Magnify c h s)) = ss s ∧
  ss_faults (snd (Magnify c h s)) = tail (ss_faults s) ∧
  (ta s = [] → ta (snd (Magnify c h s)) = []).
Proof.
  unfold Magnify. rewrite bind_run.
  unfold Has, bind, log, fault, fail; simpl.
  destruct (ss_faults s) as [|[] fs] eqn:Ef; simpl; [|by repeat split|];
    (destruct (bool_decide (is_Some (ss s !! h))); [by repeat split|]);
    match goal with |- context [examine c h ?s0] =>
      destruct (examine_run c h s0) as (H1 & H2 & H3 & H4);
      destruct (examine c h s0) as [[r|e] s1] eqn:Ex; simpl in *
    end;
    repeat split; try congruence; eauto.
  all: intros Hta; first [by eapply H3 | rewrite (H4 _ eq_refl); done].
Qed.

Lemma Magnify_agree c h s s' :
  agree s s' →
  fst (Magnify c h s) = fst (Magnify c h s') ∧
  agree (snd (Magnify c h s)) (snd (Magnify c h s')).
Proof.
  intros (Hss & Hf & Hta). unfold Magnify. rewrite !bind_run.
  unfold Has, bind, log, fault, fail; simpl. rewrite Hf, Hss.
  destruct (ss_faults s') as [|[] fs]; simpl; [|by repeat split|];
    (destruct (bool_decide (is_Some (ss s' !! h))); [by repeat split|]);
    apply examine_agree; by repeat split.
Qed.

(** The stored text is empty in every state the service goes through. *)
Lemma Store_ta newV4 dag meta name s :
  ta (snd (Store newV4 dag meta name s)) = ta s.
Proof.
  destruct newV4 as [id|]; [|done].
  destruct (Store (Some id) dag meta name s) as [r s'] eqn:Hrun.
  by destruct (Store_run _ _ _ _ _ _ _ Hrun) as [Hta _].
Qed.

Lemma reachable_clear s : reachable s → ta s = [].
Proof.
  induction 1 as [faults|c h s _ IH|newV4 dag meta name s _ IH].
  - done.
  - by apply Magnify_run.
  - by rewrite Store_ta.
Qed.

(** ** [Index] without the reindex flag *)

Lemma Index_new_unfold c name s :
  Index c (indexRequest name false) s =
  match Magnify c name s with
  | (Ok r, s0) =>
      match Store (NewV4 c) (DagPut c) (snd r) name s0 with
      | (Ok resp, s1) =>
          (Ok (mkIndexResponse (RespLensID resp) (Summary (snd r))), s1)
      | (Err e, s1) => (Err e, s1)
      end
  | (Err e, s0) => (Err e, s0)
  end.
Proof.
  unfold Index, indexRequest, MagnifyReindex. simpl.
  rewrite !bind_run. destruct (Magnify c name s) as [[r|e] s0]; [|done].
  unfold ret at 1. rewrite bind_run.
  by destruct (Store (NewV4 c) (DagPut c) (snd r) name s0) as [[resp|e] s1].
Qed.

Lemma Has_answers k s :
  answers s →
  Has k s = (Ok (bool_decide (is_Some (ss s !! k))),
             mkService (ss s) (tail (ss_faults s)) (ta s)
                       (calls s ++ [CallHas k])).
Proof.
  unfold answers, Has, bind, log, fault, fail. simpl.
  by destruct (ss_faults s) as [|[] fs].
Qed.

Lemma Magnify_indexed c name s :
  is_Some (ss s !! name) → answers s →
  Magnify c name s =
  (Err ErrAlreadyIndexed,
   mkService (ss s) (tail (ss_faults s)) (ta s) (calls s ++ [CallHas name])).
Proof.
  intros Hsome Hans. unfold Magnify. rewrite bind_run, (Has_answers _ _ Hans).
  by rewrite bool_decide_eq_true_2.
Qed.

Lemma Index_new_ok c name s resp s1 :
  Index c (indexRequest name false) s = (Ok resp, s1) →
  ∃ id r s0 resp0,
    NewV4 c = Some id ∧
    Magnify c name s = (Ok r, s0) ∧
    Store (Some id) (DagPut c) (snd r) name s0 = (Ok resp0, s1) ∧
    resp = mkIndexResponse id (Summary (snd r)).
Proof.
  rewrite Index_new_unfold.
  destruct (Magnify c name s) as [[r|e] s0] eqn:Em; [|discriminate].
  destruct (NewV4 c) as [id|] eqn:Eid; [|discriminate].
  destruct (Store (Some id) (DagPut c) (snd r) name s0) as [[resp0|e] s1'] eqn:Es;
    [|discriminate].
  intros [= <- <-]. exists id, r, s0, resp0. repeat split; [done|].
  destruct (Store_run _ _ _ _ _ _ _ Es) as (_ & p & _ & _ & Hp).
  destruct (Hp _ eq_refl) as [_ ->]. done.
Qed.

(** C3 (idempotency guard).  When the name record of an identifier is in
    the store and the datastore answers, [Index] without the reindex flag
    fails with "this object has already been indexed"; the only call made
    is the [Has] of the guard, so nothing was fetched or classified, and
    the store and the text analyzer are as before.  And when a first
    [Index] of an identifier returned a response, a second one fails with
    that error. *)
Theorem Index_already_indexed :
  (∀ c name id s,
     ss s !! name = Some (IDText id) → answers s →
     fst (Index c (indexRequest name false) s) = Err ErrAlreadyIndexed ∧
     calls (snd (Index c (indexRequest name false) s))
       = (calls s ++ [CallHas name])%list ∧
     ss (snd (Index c (indexRequest name false) s)) = ss s ∧
     ta (snd (Index c (indexRequest name false) s)) = ta s) ∧
  (∀ c1 c2 name s resp s1,
     Index c1 (indexRequest name false) s = (Ok resp, s1) → answers s1 →
     ss s !! name = None ∧
     fst (Index c2 (indexRequest name false) s1) = Err ErrAlreadyIndexed).
Proof.
  split.
  - intros c name id s Hrec Hans.
    rewrite Index_new_unfold, Magnify_indexed by eauto. done.
  - intros c1 c2 name s resp s1 Hrun Hans.
    destruct (Index_new_ok _ _ _ _ _ Hrun) as (id & r & s0 & resp0 & _ & Hm & Hs & _).
    split.
    + destruct (Magnify_run c1 name s) as (Hss & _).
      revert Hm. unfold Magnify. rewrite bind_run.
      destruct (Has_run name s) as (s' & _ & _ & [E|E]); rewrite E; [discriminate|].
      destruct (ss s !! name); [|done].
      rewrite bool_decide_eq_true_2 by eauto. discriminate.
    + rewrite Index_new_unfold, Magnify_indexed; [done| |done].
      rewrite (Store_ok_lookup _ _ _ _ _ _ _ name Hs).
      destruct (decide (name = id)); [eauto|].
      rewrite decide_True by done. eauto.
Qed.

Lemma Index_already_indexed_witness :
  let c := example "id-1" "text/plain; charset=utf-8" ["lighthouse"] in
  let first := Index c (indexRequest "Qm1" false) NewService in
  let second := Index c (indexRequest "Qm1" false) (snd first) in
  fst first = Ok (mkIndexResponse "id-1" ["contents of Qm1"; "lighthouse"]) ∧
  fst second = Err ErrAlreadyIndexed ∧
  calls (snd second) = (calls (snd first) ++ [CallHas "Qm1"])%list.
Proof.
  intros c first second.
  assert (H1 : Index c (indexRequest "Qm1" false) NewService
               = (Ok (mkIndexResponse "id-1" ["contents of Qm1"; "lighthouse"]),
                  snd first))
    by (vm_compute; reflexivity).
  assert (Hans : answers (snd first)) by (vm_compute; discriminate).
  assert (Hrec : ss (snd first) !! "Qm1" = Some (IDText "id-1"))
    by (vm_compute; reflexivity).
  destruct (proj2 Index_already_indexed c c "Qm1" NewService _ _ H1 Hans)
    as [_ H2].
  destruct (proj1 Index_already_indexed c "Qm1" "id-1" (snd first) Hrec Hans)
    as (_ & Hcalls & _).
  split; [exact (f_equal fst H1)|]. split; [exact H2|exact Hcalls].
Defined.

(** ** C10: two calls of [Store] with one name *)

(** C10, as the code has it.  [Store] reads no record under the name and
    takes the identifier [uuid.NewV4] hands it.  When two calls with the
    same name and different identifiers both return a response, the name
    being neither identifier and the first identifier no keyword of the
    second summary, then afterwards the name record holds the second
    identifier, the object record of the first call is still under the
    first identifier, and every keyword of the first summary, other than
    the name and the two identifiers, still has a record that contains
    the first identifier. *)
Theorem Store_twice_same_name
    s id1 id2 dag1 dag2 meta1 meta2 name resp1 resp2 s1 s2 :
  Store (Some id1) dag1 meta1 name s = (Ok resp1, s1) →
  Store (Some id2) dag2 meta2 name s1 = (Ok resp2, s2) →
  id1 ≠ id2 → name ≠ id1 → name ≠ id2 → id1 ∉ Summary meta2 →
  RespLensID resp1 = id1 ∧ RespLensID resp2 = id2 ∧
  ss s1 !! name = Some (IDText id1) ∧
  ss s2 !! name = Some (IDText id2) ∧
  ss s2 !! id1 = Some (ObjectJSON (mkObject id1 name meta1)) ∧
  ss s2 !! id2 = Some (ObjectJSON (mkObject id2 name meta2)) ∧
  ∀ k, k ∈ Summary meta1 → k ≠ name → k ≠ id1 → k ≠ id2 →
       ∃ keyword, ss s2 !! k = Some (KeywordJSON keyword) ∧
                  id1 ∈ LensIdentifiers keyword.
Proof.
  intros Hrun1 Hrun2 Hids Hn1 Hn2 Hi1S2.
  destruct (Store_run _ _ _ _ _ _ _ Hrun1) as (_ & p1 & _ & _ & Hp1).
  destruct (Store_run _ _ _ _ _ _ _ Hrun2) as (_ & p2 & _ & _ & Hp2).
  destruct (Hp1 _ eq_refl) as [_ ->]. destruct (Hp2 _ eq_refl) as [_ ->].
  repeat split.
  - rewrite (Store_ok_lookup _ _ _ _ _ _ _ name Hrun1).
    rewrite decide_False by done. by rewrite decide_True.
  - rewrite (Store_ok_lookup _ _ _ _ _ _ _ name Hrun2).
    rewrite decide_False by done. by rewrite decide_True.
  - rewrite (Store_ok_lookup _ _ _ _ _ _ _ id1 Hrun2).
    rewrite !decide_False by done. rewrite bool_decide_eq_false_2 by done.
    rewrite (Store_ok_lookup _ _ _ _ _ _ _ id1 Hrun1). by rewrite decide_True.
  - rewrite (Store_ok_lookup _ _ _ _ _ _ _ id2 Hrun2). by rewrite decide_True.
  - intros k Hk Hkn Hk1 Hk2.
    destruct (Store_ok_keywords _ _ _ _ _ _ _ k Hrun1) as (kw1 & Hkw1 & Hin1);
      try done.
    destruct (Store_ok_keeps _ _ _ _ _ _ _ k kw1 Hrun2) as (kw2 & Hkw2 & Hin2);
      try done.
    exists kw2. split; [done|]. by apply Hin2.
Qed.

Lemma Store_twice_same_name_witness :
  let meta1 := mkMetaData ["a"; "b"] "text/plain" "document" in
  let meta2 := mkMetaData ["b"; "c"] "text/plain" "document" in
  let r1 := Store (Some "id-1") exampleDag meta1 "Qm1" NewService in
  let r2 := Store (Some "id-2") exampleDag meta2 "Qm1" (snd r1) in
  ss (snd r2) !! "Qm1" = Some (IDText "id-2") ∧
  ss (snd r2) !! "id-1" = Some (ObjectJSON (mkObject "id-1" "Qm1" meta1)) ∧
  ∀ k, k ∈ Summary meta1 → k ≠ "Qm1" → k ≠ "id-1" → k ≠ "id-2" →
       ∃ keyword, ss (snd r2) !! k = Some (KeywordJSON keyword) ∧
                  "id-1" ∈ LensIdentifiers keyword.
Proof.
  intros meta1 meta2 r1 r2.
  assert (H1 : Store (Some "id-1") exampleDag meta1 "Qm1" NewService
               = (Ok (mkIndexOperationResponse "bafy-object" "id-1"), snd r1))
    by (vm_compute; reflexivity).
  assert (H2 : Store (Some "id-2") exampleDag meta2 "Qm1" (snd r1)
               = (Ok (mkIndexOperationResponse "bafy-object" "id-2"), snd r2))
    by (vm_compute; reflexivity).
  destruct (Store_twice_same_name _ _ _ _ _ _ _ _ _ _ _ _ H1 H2
              (neq_eval "id-1" "id-2" eq_refl)
              (neq_eval "Qm1" "id-1" eq_refl)
              (neq_eval "Qm1" "id-2" eq_refl)
              (not_elem_of_eval "id-1" ["b"; "c"] eq_refl))
    as (_ & _ & _ & Hname & Hobj & _ & Hkw).
  exact (conj Hname (conj Hobj Hkw)).
Defined.

(** C10 as it is worded fails when the name is one of the keywords: the
    first call writes the keyword record of "x", then the name record
    over it; after a second call with the same name, which is neither
    identifier, no keyword record under "x" holds the first identifier. *)
Lemma Store_twice_same_name_counterexample :
  let meta1 := mkMetaData ["x"] "text/plain" "document" in
  let meta2 := mkMetaData [] "text/plain" "document" in
  let r1 := Store (Some "id-1") exampleDag meta1 "x" NewService in
  let r2 := Store (Some "id-2") exampleDag meta2 "x" (snd r1) in
  fst r1 = Ok (mkIndexOperationResponse "bafy-object" "id-1") ∧
  fst r2 = Ok (mkIndexOperationResponse "bafy-object" "id-2") ∧
  "x" ∈ Summary meta1 ∧
  ss (snd r2) !! "x" = Some (IDText "id-2") ∧
  ¬ (∃ keyword, ss (snd r2) !! "x" = Some (KeywordJSON keyword) ∧
                "id-1" ∈ LensIdentifiers keyword).
Proof.
  intros meta1 meta2 r1 r2.
  assert (Hx : ss (snd r2) !! "x" = Some (IDText "id-2"))
    by (vm_compute; reflexivity).
  split; [vm_compute; reflexivity|]. split; [vm_compute; reflexivity|].
  split; [left|]. split; [exact Hx|].
  intros (keyword & Hk & _). rewrite Hx in Hk. discriminate.
Qed.

(** ** C9: [Store] stopped in the keyword loop *)

Lemma addId_IDText id v o i :
  addId id v o = Some (IDText i) → o = Some (IDText i).
Proof.
  unfold addId. destruct o as [b|]; [|discriminate].
  destruct (unmarshalKeyword b) as [kw|] eqn:Eu; [|done].
  destruct (detected id (LensIdentifiers kw)); [done|discriminate].
Qed.

Lemma examine_not_already c h s :
  fst (examine c h s) ≠ Err ErrAlreadyIndexed.
Proof. magnify_unfold. magnify_cases c h; discriminate. Qed.

Lemma Magnify_unseen c name s :
  ss s !! name = None → answers s →
  fst (Magnify c name s) ≠ Err ErrAlreadyIndexed.
Proof.
  intros Hnone Hans. unfold Magnify.
  rewrite bind_run, (Has_answers _ _ Hans), Hnone.
  rewrite bool_decide_eq_false_2 by (intros [? ?]; discriminate).
  apply examine_not_already.
Qed.

(** C9, as the code has it.  When the keyword loop of [Store] stops on an
    error, [Store] returns that error with the store as the loop left it:
    the name record and the object record are written after the loop only.
    The store then differs from before under keywords of the summary
    only, and no name record has appeared under the name.  When moreover
    the name had no record before and is not itself a keyword of the
    summary, nothing is under the name afterwards and the guard of
    [Magnify] does not reject it (the datastore answering). *)
Theorem Store_stopped_in_keywords id dag meta name s e s' :
  storeKeywords id (Summary meta) s = (Err e, s') →
  Store (Some id) dag meta name s = (Err e, s') ∧
  (∀ k, k ∉ Summary meta → ss s' !! k = ss s !! k) ∧
  (∀ i, ss s' !! name = Some (IDText i) → ss s !! name = Some (IDText i)) ∧
  (ss s !! name = None → name ∉ Summary meta →
   ss s' !! name = None ∧
   ∀ c s2, ss s2 = ss s' → answers s2 →
           fst (Magnify c name s2) ≠ Err ErrAlreadyIndexed).
Proof.
  intros Hloop.
  destruct (storeKeywords_run _ _ _ _ _ Hloop)
    as (_ & processed & remaining & Hsum & Hss & _ & _ & _).
  assert (Hframe : ∀ k, k ∉ Summary meta → ss s' !! k = ss s !! k).
  { intros k Hk. rewrite Hss, addKeywords_lookup.
    rewrite bool_decide_eq_false_2; [done|].
    intros Hin. apply Hk. rewrite Hsum. apply elem_of_app. by left. }
  repeat split.
  - unfold Store. by rewrite bind_run, Hloop.
  - done.
  - intros i. rewrite Hss, addKeywords_lookup.
    case_bool_decide; [apply addId_IDText|done].
  - by rewrite Hframe.
  - intros c s2 Hs2 Hans. apply Magnify_unseen; [|done].
    rewrite Hs2, Hframe by done. done.
Qed.

Lemma Store_stopped_in_keywords_witness :
  let out := Store (Some "id-1") exampleDag twoKeywords "Qm1" thirdFails in
  fst out = Err ErrStore ∧
  ss (snd out) !! "Qm1" = None ∧
  fst (Magnify (example "id-2" "text/plain" ["x"]) "Qm1" (snd out))
    ≠ Err ErrAlreadyIndexed.
Proof.
  intros out.
  assert (Hloop : storeKeywords "id-1" (Summary twoKeywords) thirdFails
                  = (Err ErrStore, snd out)) by (vm_compute; reflexivity).
  destruct (Store_stopped_in_keywords "id-1" exampleDag twoKeywords "Qm1"
              thirdFails ErrStore (snd out) Hloop) as (Hstore & _ & _ & Hname).
  destruct Hname as [Hnone Hguard].
  - vm_compute; reflexivity.
  - apply not_elem_of_eval. vm_compute; reflexivity.
  - split; [exact (f_equal fst Hstore)|]. split; [exact Hnone|].
    apply Hguard; [reflexivity|]. vm_compute. discriminate.
Defined.

(** C9 as it is worded fails when the name is one of the keywords the
    loop got through: the keyword record sits under the name, and the
    guard of [Magnify], which asks [Has(contentHash)], rejects the next
    attempt. *)
Lemma Store_stopped_in_keywords_counterexample :
  let out := Store (Some "id-1") exampleDag twoKeywords "x" thirdFails in
  ss thirdFails !! "x" = None ∧
  storeKeywords "id-1" (Summary twoKeywords) thirdFails = (Err ErrStore, snd out) ∧
  fst out = Err ErrStore ∧
  ss (snd out) !! "x" = Some (KeywordJSON (mkKeyword "x" ["id-1"])) ∧
  fst (Magnify (example "id-2" "text/plain" ["x"]) "x" (snd out))
    = Err ErrAlreadyIndexed.
Proof. intros out. evaluate. Qed.


(** ** The content type, as [Magnify] reads it *)

Lemma append_cons r (s t : string) : String r s ++ t = String r (s ++ t).
Proof. reflexivity. Qed.

Lemma append_empty (s : string) : s ++ "" = s.
Proof.
  induction s as [|r s IH]; [reflexivity|]. by rewrite append_cons, IH.
Qed.

Lemma append_snoc (s : string) r t : (s ++ String r "") ++ t = s ++ String r t.
Proof.
  induction s as [|a s IH]; [reflexivity|]. by rewrite !append_cons, IH.
Qed.

Lemma eqb_nonempty (s : string) : s ≠ "" → String.eqb s "" = false.
Proof. intros H. by apply String.eqb_neq. Qed.

Lemma fieldsFrom_head f : ∀ s field,
  field ≠ "" → ∃ fs, fieldsFrom f field s = (field ++ upTo f s) :: fs.
Proof.
  induction s as [|r rest IH]; intros field Hfield; simpl.
  - rewrite eqb_nonempty, append_empty by done. eauto.
  - destruct (f r).
    + rewrite eqb_nonempty, append_empty by done. eauto.
    + destruct (IH (field ++ String r "")) as [fs Hfs].
      * by destruct field.
      * rewrite Hfs, append_snoc. eauto.
Qed.

(** A content type that does not begin with the separator: its first
    field is what stands before the first separator. *)
Lemma FieldsFunc_head f r rest :
  f r = false → ∃ fs, FieldsFunc f (String r rest) = upTo f (String r rest) :: fs.
Proof.
  intros Hr. unfold FieldsFunc. simpl. rewrite Hr.
  change ("" ++ String r "") with (String r "").
  destruct (fieldsFrom_head f rest (String r "")) as [fs Hfs]; [done|].
  rewrite Hfs. eauto.
Qed.

Lemma Unique_singleton x : Unique [x] = [x].
Proof.
  unfold Unique. cbn [UniqueFrom]. rewrite bool_decide_eq_false_2; [done|].
  apply not_elem_of_nil.
Qed.

(** [Magnify] on a name the store does not know, the datastore answering
    and the fetch succeeding: the guard, the fetch and the detection have
    been called when the content is classified. *)
Lemma Magnify_fetched c h s contents :
  ss s !! h = None → answers s → ExtractContents c h = Some contents →
  Magnify c h s =
  let s0 := mkService (ss s) (tail (ss_faults s)) (ta s)
              (calls s ++ [CallHas h; CallExtractContents h;
                           CallDetectContentType]) in
  let contentType := DetectContentType c contents in
  let parsed := FieldsFunc isSemicolon contentType in
  match classify c contents contentType parsed (FieldsFunc isSlash contentType) s0 with
  | (Ok mc, s1) =>
      (Ok (hd "" parsed, mkMetaData (Unique (fst mc)) contentType (snd mc)),
       mkService (ss s1) (ss_faults s1) [] (calls s1 ++ [CallClear]))
  | (Err e, s1) => (Err e, s1)
  end.
Proof.
  intros Hnone Hans Hext. unfold Magnify.
  rewrite bind_run, (Has_answers _ _ Hans), Hnone.
  rewrite bool_decide_eq_false_2 by (intros [? ?]; discriminate).
  unfold examine, liftOption, Clear, bind, log, ret. simpl.
  rewrite Hext. simpl. rewrite <- !app_assoc. simpl.
  by destruct (classify _ _ _ _ _ _) as [[mc|e] s1].
Qed.

Lemma essence_head contentType r m :
  essence contentType = String r m →
  ∃ fs, FieldsFunc isSemicolon contentType = String r m :: fs.
Proof.
  unfold essence. destruct contentType as [|a rest]; simpl; [discriminate|].
  destruct (isSemicolon a) eqn:Ea; [discriminate|]. intros Hm.
  destruct (FieldsFunc_head isSemicolon a rest Ea) as [fs Hfs].
  exists fs. rewrite Hfs. simpl. rewrite Ea. congruence.
Qed.

Lemma topLevel_head contentType r m :
  topLevel contentType = String r m →
  ∃ fs, FieldsFunc isSlash contentType = String r m :: fs.
Proof.
  unfold topLevel. destruct contentType as [|a rest]; simpl; [discriminate|].
  destruct (isSlash a) eqn:Ea; [discriminate|]. intros Hm.
  destruct (FieldsFunc_head isSlash a rest Ea) as [fs Hfs].
  exists fs. rewrite Hfs. simpl. rewrite Ea. congruence.
Qed.

(** "text/..." and "image/...": the two fields [Magnify] looks at. *)
Lemma fields_of_type (ty rest : string) r m :
  ty = String r m → isSemicolon r = false →
  topLevel (ty ++ "/" ++ rest) = ty →
  ∃ fs fs', FieldsFunc isSemicolon (ty ++ "/" ++ rest)
              = essence (ty ++ "/" ++ rest) :: fs ∧
            FieldsFunc isSlash (ty ++ "/" ++ rest) = ty :: fs' ∧
            ∃ m', essence (ty ++ "/" ++ rest) = String r m'.
Proof.
  intros -> Hr Htop.
  destruct (topLevel_head _ _ _ Htop) as [fs' Hfs'].
  destruct (FieldsFunc_head isSemicolon r (m ++ "/" ++ rest) Hr) as [fs Hfs].
  exists fs, fs'. split; [exact Hfs|]. split; [exact Hfs'|].
  unfold essence. rewrite append_cons. simpl. rewrite Hr. eauto.
Qed.

(** ** C5: the dispatch on the detected content type *)

(** C5.  [Magnify] on a name the store does not know, in a state the
    service goes through, the fetch having answered [contents].  When the
    detected type is application/pdf, the summary is what the summarizer
    returns, with ratio 1/4, for the text extracted from the PDF, and the
    category is "pdf".  When it is text/..., the summary is what the
    summarizer returns, with ratio 1/4, for the contents themselves, and
    the category is "document".  When it is image/..., the summary is the
    one keyword of the image classifier and the category is "image".  In
    each case the summary goes through [utils.Unique] and the metadata
    carries the detected type. *)
Theorem Magnify_dispatch c h s contents :
  reachable s → ss s !! h = None → answers s →
  ExtractContents c h = Some contents →
  let contentType := DetectContentType c contents in
  (essence contentType = "application/pdf" →
   ∀ text, GetPlainText c contents = Some text →
     fst (Magnify c h s) =
     Ok ("application/pdf",
         mkMetaData (Unique (TextRank c [text] ratio_0_25)) contentType "pdf")) ∧
  (∀ rest, contentType = "text/" ++ rest →
     fst (Magnify c h s) =
     Ok (essence contentType,
         mkMetaData (Unique (TextRank c [contents] ratio_0_25))
                    contentType "document")) ∧
  (∀ rest keyword, contentType = "image/" ++ rest →
     ClassifyImage c contents = Some keyword →
     fst (Magnify c h s) =
     Ok (essence contentType, mkMetaData [keyword] contentType "image")).
Proof.
  intros Hreach Hnone Hans Hext contentType.
  pose proof (reachable_clear s Hreach) as Hta.
  rewrite (Magnify_fetched _ _ _ _ Hnone Hans Hext). fold contentType.
  cbv zeta. repeat split.
  - intros Hpdf text Htext.
    destruct (essence_head _ _ _ Hpdf) as [fs ->].
    unfold classify, Summarize, liftOption, bind, log, ret. simpl.
    rewrite Htext. simpl. by rewrite Hta.
  - intros rest Hct.
    destruct (fields_of_type "text" rest "t" "ext" eq_refl eq_refl eq_refl)
      as (fs & fs' & Hp & Hp2 & m' & Hm').
    change ("text" ++ "/" ++ rest) with ("text/" ++ rest) in *.
    rewrite <- Hct in *. rewrite Hp, Hp2, Hm'.
    unfold classify, Summarize, bind, log, ret. simpl. by rewrite Hta.
  - intros rest keyword Hct Himg.
    destruct (fields_of_type "image" rest "i" "mage" eq_refl eq_refl eq_refl)
      as (fs & fs' & Hp & Hp2 & m' & Hm').
    change ("image" ++ "/" ++ rest) with ("image/" ++ rest) in *.
    rewrite <- Hct in *. rewrite Hp, Hp2, Hm'.
    unfold classify, liftOption, bind, log, ret. simpl.
    rewrite Himg. simpl. by rewrite Unique_singleton.
Qed.

Lemma Magnify_dispatch_witness :
  fst (Magnify (example "id-1" "application/pdf" ["tide"]) "Qm1" NewService) =
    Ok ("application/pdf",
        mkMetaData ["text of contents of Qm1"; "tide"] "application/pdf" "pdf") ∧
  fst (Magnify (example "id-1" "text/plain; charset=utf-8" ["tide"]) "Qm1" NewService) =
    Ok ("text/plain",
        mkMetaData ["contents of Qm1"; "tide"] "text/plain; charset=utf-8" "document") ∧
  fst (Magnify (example "id-1" "image/png" ["tide"]) "Qm1" NewService) =
    Ok ("image/png", mkMetaData ["lighthouse"] "image/png" "image").
Proof.
  assert (Hans : answers NewService) by (vm_compute; discriminate).
  split; [|split].
  - exact (proj1 (Magnify_dispatch (example "id-1" "application/pdf" ["tide"])
                    "Qm1" NewService "contents of Qm1"
                    (reach_new []) eq_refl Hans eq_refl)
             eq_refl "text of contents of Qm1" eq_refl).
  - exact (proj1 (proj2 (Magnify_dispatch
                    (example "id-1" "text/plain; charset=utf-8" ["tide"])
                    "Qm1" NewService "contents of Qm1"
                    (reach_new []) eq_refl Hans eq_refl))
             "plain; charset=utf-8" eq_refl).
  - exact (proj2 (proj2 (Magnify_dispatch (example "id-1" "image/png" ["tide"])
                    "Qm1" NewService "contents of Qm1"
                    (reach_new []) eq_refl Hans eq_refl))
             "png" "lighthouse" eq_refl eq_refl).
Defined.

(** ** C7: a content type [Magnify] does not index *)

(** C7.  The detected content type is "type/subtype", with parameters or
    without; when it is not application/pdf and its type is neither text
    nor image, [Magnify] fails with "unsupported content type for
    indexing", and so does [Index].  The calls made are the guard, the
    fetch and the detection: no [Put], and the store is as before. *)
Theorem Magnify_unsupported c h s contents :
  ss s !! h = None → answers s → ExtractContents c h = Some contents →
  let contentType := DetectContentType c contents in
  essence contentType ≠ "" → topLevel contentType ≠ "" →
  essence contentType ≠ "application/pdf" →
  topLevel contentType ≠ "text" → topLevel contentType ≠ "image" →
  fst (Magnify c h s) = Err ErrUnsupportedType ∧
  Index c (indexRequest h false) s = (Err ErrUnsupportedType, snd (Magnify c h s)) ∧
  ss (snd (Magnify c h s)) = ss s ∧
  calls (snd (Magnify c h s)) =
    (calls s ++ [CallHas h; CallExtractContents h; CallDetectContentType])%list.
Proof.
  intros Hnone Hans Hext contentType He Ht Hpdf Htext Himage.
  assert (Hrun : Magnify c h s =
            (Err ErrUnsupportedType,
             mkService (ss s) (tail (ss_faults s)) (ta s)
               (calls s ++ [CallHas h; CallExtractContents h;
                            CallDetectContentType]))).
  { rewrite (Magnify_fetched _ _ _ _ Hnone Hans Hext). fold contentType.
    cbv zeta.
    destruct (essence contentType) as [|r m] eqn:Ee; [done|].
    destruct (topLevel contentType) as [|r' m'] eqn:Et; [done|].
    destruct (essence_head _ _ _ Ee) as [fs ->].
    destruct (topLevel_head _ _ _ Et) as [fs' ->].
    unfold classify.
    rewrite (proj2 (String.eqb_neq _ _) Hpdf).
    rewrite (proj2 (String.eqb_neq _ _) Htext).
    rewrite (proj2 (String.eqb_neq _ _) Himage). reflexivity. }
  rewrite Index_new_unfold, Hrun. by repeat split.
Qed.

Lemma Magnify_unsupported_witness :
  let c := example "id-1" "application/octet-stream" ["tide"] in
  fst (Magnify c "Qm1" NewService) = Err ErrUnsupportedType ∧
  Index c (indexRequest "Qm1" false) NewService
    = (Err ErrUnsupportedType, snd (Magnify c "Qm1" NewService)) ∧
  ss (snd (Magnify c "Qm1" NewService)) = ∅.
Proof.
  intros c.
  assert (Hans : answers NewService) by (vm_compute; discriminate).
  destruct (Magnify_unsupported c "Qm1" NewService "contents of Qm1"
              eq_refl Hans eq_refl
              (neq_eval "application/octet-stream" "" eq_refl)
              (neq_eval "application" "" eq_refl)
              (neq_eval "application/octet-stream" "application/pdf" eq_refl)
              (neq_eval "application" "text" eq_refl)
              (neq_eval "application" "image" eq_refl))
    as (H1 & H2 & H3 & _).
  exact (conj H1 (conj H2 H3)).
Defined.

(** ** C8: the text analyzer between two classifications *)

(** C8.  [Magnify] clears the text analyzer after it summarized; the
    paths that return before [s.ta.Clear()] have not summarized.  So in
    every state the service goes through the stored text is empty, before
    and after each call of [Magnify], whatever the call returned.  And
    what a second [Magnify] returns does not depend on which content the
    first one processed. *)
Theorem Magnify_clears_analyzer s :
  reachable s →
  ta s = [] ∧
  (∀ c h, ta (snd (Magnify c h s)) = []) ∧
  (∀ c1 c1' h1 h1' c2 h2,
     fst (Magnify c2 h2 (snd (Magnify c1 h1 s))) =
     fst (Magnify c2 h2 (snd (Magnify c1' h1' s)))).
Proof.
  intros Hs. pose proof (reachable_clear s Hs) as Hta.
  split; [done|]. split.
  - intros c h. by apply Magnify_run.
  - intros c1 c1' h1 h1' c2 h2. apply Magnify_agree.
    destruct (Magnify_run c1 h1 s) as (Hss & Hf & Hclear).
    destruct (Magnify_run c1' h1' s) as (Hss' & Hf' & Hclear').
    repeat split; [congruence|congruence|].
    rewrite Hclear, Hclear' by done. done.
Qed.

Lemma Magnify_clears_analyzer_witness :
  let c1 := example "id-1" "text/plain" ["tide"] in
  let c1' := example "id-1" "application/octet-stream" ["storm"] in
  let c2 := example "id-2" "text/html" ["harbour"] in
  ta (snd (Magnify c1 "Qm1" NewService)) = [] ∧
  ta (snd (Magnify c1' "Qm9" NewService)) = [] ∧
  fst (Magnify c2 "Qm2" (snd (Magnify c1 "Qm1" NewService))) =
  fst (Magnify c2 "Qm2" (snd (Magnify c1' "Qm9" NewService))).
Proof.
  intros c1 c1' c2.
  destruct (Magnify_clears_analyzer NewService (reach_new [])) as (_ & H1 & H2).
  exact (conj (H1 c1 "Qm1") (conj (H1 c1' "Qm9") (H2 c1 c1' "Qm1" "Qm9" c2 "Qm2"))).
Defined.

(** ** C6: what [Search] returns *)

Lemma append_each {A B} (f : A → B) (l : list A) : ∀ init,
  foldl (fun objs v => (objs ++ [f v])%list) init l = (init ++ map f l)%list.
Proof.
  induction l as [|v rest IH]; intros init; simpl.
  - by rewrite app_nil_r.
  - by rewrite IH, <- app_assoc.
Qed.

(** The slice [Search] returns: as many nil pointers as there are objects,
    then the records of the objects. *)
Lemma Search_run c keywords s objects :
  KeywordSearch c (ss s) keywords = Some objects →
  Search c keywords s =
  (Ok (replicate (List.length objects) None ++ map (fun v => Some (toResponse v)) objects)%list,
   s).
Proof.
  intros Hk. unfold Search, ServiceKeywordSearch, bind, ret. rewrite Hk.
  by rewrite (append_each (fun v => Some (toResponse v))).
Qed.

(** C6 on the code: one object is indexed, with summary {"lighthouse"};
    the search for "lighthouse" finds that object, and [Search] answers a
    slice of two entries, a nil pointer and then the record of the
    object. *)
Theorem Search_lighthouse :
  let indexed := Index lighthouseService (indexRequest "Qm1" false) NewService in
  fst indexed = Ok (mkIndexResponse "id-1" ["lighthouse"]) ∧
  KeywordSearch lighthouseService (ss (snd indexed)) ["lighthouse"]
    = Some [mkObject "id-1" "Qm1" (mkMetaData ["lighthouse"] "image/jpeg" "image")] ∧
  fst (Search lighthouseService ["lighthouse"] (snd indexed))
    = Ok [None; Some (mkResponseObject "Qm1" "image/jpeg" "image")].
Proof. intros indexed. evaluate. Qed.

(** ** [Index] with the reindex flag *)

Lemma Index_reindex_unfold c name s :
  Index c (indexRequest name true) s =
  match MagnifyReindex c name true s with
  | (Ok metaData, s0) =>
      match reindexBranch metaData name s0 with
      | (Ok resp, s1) =>
          (Ok (mkIndexResponse (RespLensID resp) (Summary metaData)), s1)
      | (Err e, s1) => (Err e, s1)
      end
  | (Err e, s0) => (Err e, s0)
  end.
Proof.
  unfold Index, indexRequest, reindexBranch, MagnifyReindex. simpl.
  rewrite !bind_run.
  destruct (Has name s) as [[[]|e] s']; simpl; [|done|done].
  rewrite !bind_run.
  destruct (examine c name s') as [[r|e] s0]; simpl; [|done].
  rewrite bind_run.
  by destruct (bind (orFail (ServiceGet name) ErrFindID) _ s0) as [[resp|e] s1].
Qed.

(** The name record is read and never decoded: the branch stops on the
    error of [Get] or on the error of [uuid.FromBytes], before [Update],
    with the store as it was. *)
Lemma reindexBranch_fails metaData objectID s :
  ss (snd (reindexBranch metaData objectID s)) = ss s ∧
  calls (snd (reindexBranch metaData objectID s))
    = (calls s ++ [CallGet objectID])%list ∧
  (fst (reindexBranch metaData objectID s) = Err ErrFindID ∨
   fst (reindexBranch metaData objectID s) = Err ErrInvalidUUID) ∧
  (is_Some (ss s !! objectID) → answers s →
   fst (reindexBranch metaData objectID s) = Err ErrInvalidUUID).
Proof.
  unfold reindexBranch, orFail, ServiceGet, Get, bind, log, fault, fail. simpl.
  unfold answers.
  destruct (ss_faults s) as [|[] fs]; simpl;
    destruct (ss s !! objectID) as [[kw|o|i]|] eqn:Eb; simpl;
    repeat split; auto; try (intros [? ?] ?; done); try (intros ? ?; done).
Qed.

Lemma MagnifyReindex_store c name s :
  ss (snd (MagnifyReindex c name true s)) = ss s.
Proof.
  unfold MagnifyReindex. rewrite bind_run.
  destruct (Has_run name s) as (s0 & Hss0 & _ & [E|E]); rewrite E; [done|].
  destruct (bool_decide (is_Some (ss s !! name))); [|done].
  rewrite bind_run. destruct (examine_run c name s0) as (Hss1 & _).
  destruct (examine c name s0) as [[r|e] s1]; simpl in *; congruence.
Qed.

(** With the text of the identifier under the name, as [Store] writes it,
    [Index] with the reindex flag returns no response, whatever the
    collaborators answer, and leaves the store as it was. *)
Lemma Index_reindex_fails c name s :
  (∃ e, fst (Index c (indexRequest name true) s) = Err e) ∧
  ss (snd (Index c (indexRequest name true) s)) = ss s.
Proof.
  rewrite Index_reindex_unfold.
  pose proof (MagnifyReindex_store c name s) as Hss0.
  destruct (MagnifyReindex c name true s) as [[metaData|e] s0]; simpl in *;
    [|eauto].
  destruct (reindexBranch_fails metaData name s0) as (Hss1 & _ & Herr & _).
  destruct (reindexBranch metaData name s0) as [[resp|e] s1]; simpl in *.
  - destruct Herr; discriminate.
  - split; [eauto|congruence].
Qed.

(** ** C4: the reindex branch and the name record *)


(** ** C1: the keyword records after a reindex *)


(** * Further properties of the code *)

(** ** [SearchByKeyName] *)

Lemma Get_answers k s :
  answers s →
  Get k s = (match ss s !! k with
             | Some b => Ok b
             | None => Err ErrStore
             end,
             mkService (ss s) (tail (ss_faults s)) (ta s)
                       (calls s ++ [CallGet k])).
Proof.
  unfold answers, Get, bind, log, fault, fail. simpl.
  destruct (ss_faults s) as [|[] fs]; simpl; try done;
    by destruct (ss s !! k).
Qed.

Lemma SearchByKeyName_run keyname s :
  answersTwice s →
  SearchByKeyName keyname s =
  match ss s !! keyname with
  | Some b =>
      (Ok b, mkService (ss s) (tail (tail (ss_faults s))) (ta s)
               (calls s ++ [CallHas keyname; CallGet keyname]))
  | None =>
      (Err ErrKeynameMissing,
       mkService (ss s) (tail (ss_faults s)) (ta s) (calls s ++ [CallHas keyname]))
  end.
Proof.
  intros [Hans Hans2]. unfold SearchByKeyName.
  rewrite bind_run, (Has_answers _ _ Hans).
  destruct (ss s !! keyname) as [b0|] eqn:Ek.
  - rewrite bool_decide_eq_true_2 by eauto. simpl.
    rewrite Get_answers by done. simpl. by rewrite Ek, <- app_assoc.
  - by rewrite bool_decide_eq_false_2 by (intros [? ?]; discriminate).
Qed.

(** X1.  [SearchByKeyName], the datastore answering.  For a key the store
    does not hold it fails with "keyname does not exist" after the [Has]
    alone: no [Get] is made.  For a key the store holds it returns the
    bytes stored under it, after a [Has] and a [Get].  In both cases the
    store is as before. *)
Theorem SearchByKeyName_answer keyname s :
  answersTwice s →
  ss (snd (SearchByKeyName keyname s)) = ss s ∧
  (ss s !! keyname = None →
   fst (SearchByKeyName keyname s) = Err ErrKeynameMissing ∧
   calls (snd (SearchByKeyName keyname s)) = (calls s ++ [CallHas keyname])%list) ∧
  (∀ b, ss s !! keyname = Some b →
   fst (SearchByKeyName keyname s) = Ok b ∧
   calls (snd (SearchByKeyName keyname s))
     = (calls s ++ [CallHas keyname; CallGet keyname])%list).
Proof.
  intros Hans. rewrite (SearchByKeyName_run _ _ Hans).
  destruct (ss s !! keyname) as [b0|] eqn:Ek; simpl.
  - split; [done|]. split; [discriminate|]. by intros b [= ->].
  - split; [done|]. split; [done|]. discriminate.
Qed.

Lemma SearchByKeyName_answer_witness :
  fst (SearchByKeyName "Qm1" NewService) = Err ErrKeynameMissing ∧
  fst (SearchByKeyName "Qm1"
         (snd (Put "Qm1" (IDText "id-1") NewService))) = Ok (IDText "id-1").
Proof.
  assert (H0 : answersTwice NewService) by (split; vm_compute; discriminate).
  assert (H1 : answersTwice (snd (Put "Qm1" (IDText "id-1") NewService)))
    by (split; vm_compute; discriminate).
  destruct (SearchByKeyName_answer "Qm1" NewService H0) as (_ & Hmiss & _).
  destruct (SearchByKeyName_answer "Qm1" _ H1) as (_ & _ & Hhit).
  split.
  - apply Hmiss. vm_compute; reflexivity.
  - apply (Hhit (IDText "id-1")). vm_compute; reflexivity.
Defined.

(** X2.  What [Store] wrote can be read back.  After a call of [Store]
    that returned a response, [SearchByKeyName] of the identifier returns
    the marshaled object, made of the identifier, the name and the
    metadata; and [SearchByKeyName] of the name returns the text of the
    identifier, unless the name is that text. *)
Theorem Store_then_SearchByKeyName id dag meta name s resp s' :
  Store (Some id) dag meta name s = (Ok resp, s') →
  answersTwice s' →
  fst (SearchByKeyName id s') = Ok (ObjectJSON (mkObject id name meta)) ∧
  fst (SearchByKeyName (RespLensID resp) s')
    = Ok (ObjectJSON (mkObject id name meta)) ∧
  (name ≠ id → fst (SearchByKeyName name s') = Ok (IDText id)).
Proof.
  intros Hrun Hans.
  destruct (Store_run _ _ _ _ _ _ _ Hrun) as (_ & p & _ & _ & Hp).
  destruct (Hp _ eq_refl) as [_ ->].
  assert (Hobj : fst (SearchByKeyName id s')
                 = Ok (ObjectJSON (mkObject id name meta))).
  { rewrite (SearchByKeyName_run _ _ Hans).
    rewrite (Store_ok_lookup _ _ _ _ _ _ _ id Hrun). by rewrite decide_True. }
  split; [done|]. split; [done|].
  intros Hne. rewrite (SearchByKeyName_run _ _ Hans).
  rewrite (Store_ok_lookup _ _ _ _ _ _ _ name Hrun).
  rewrite decide_False by done. by rewrite decide_True.
Qed.

Lemma Store_then_SearchByKeyName_witness :
  let meta := mkMetaData ["a"; "b"] "text/plain" "document" in
  let r := Store (Some "id-1") exampleDag meta "Qm1" NewService in
  fst (SearchByKeyName "id-1" (snd r)) = Ok (ObjectJSON (mkObject "id-1" "Qm1" meta)) ∧
  fst (SearchByKeyName "Qm1" (snd r)) = Ok (IDText "id-1").
Proof.
  intros meta r.
  assert (H1 : Store (Some "id-1") exampleDag meta "Qm1" NewService
               = (Ok (mkIndexOperationResponse "bafy-object" "id-1"), snd r))
    by (vm_compute; reflexivity).
  assert (Hans : answersTwice (snd r)) by (split; vm_compute; discriminate).
  destruct (Store_then_SearchByKeyName _ _ _ _ _ _ _ H1 Hans) as (Hid & _ & Hname).
  exact (conj Hid (Hname (neq_eval "Qm1" "id-1" eq_refl))).
Defined.

(** ** [Store]: what it leaves alone and what it leaves behind *)

Lemma Has_error k s e s' : Has k s = (Err e, s') → e = ErrStore.
Proof.
  destruct (Has_run k s) as (s0 & _ & _ & [E|E]); rewrite E; by intros [= <- _].
Qed.

Lemma Get_error k s e s' : Get k s = (Err e, s') → e = ErrStore.
Proof.
  unfold Get, bind, log, fault, fail. simpl.
  destruct (ss_faults s) as [|[] fs]; simpl;
    destruct (ss s !! k); simpl; by intros [= <- _].
Qed.

Lemma Put_error k b s e s' : Put k b s = (Err e, s') → e = ErrStore.
Proof.
  destruct (Put_run k b s) as (s0 & _ & [[E _]|[E _]]); rewrite E; by intros [= <- _].
Qed.

Lemma storeKeywords_error id summary : ∀ s e s',
  storeKeywords id summary s = (Err e, s') → e = ErrStore ∨ e = ErrUnmarshal.
Proof.
  induction summary as [|v rest IH]; intros s e s'; simpl; [discriminate|].
  rewrite bind_run. destruct (Has v s) as [[has|e0] s0] eqn:EH.
  2:{ intros [= <- _]. left. by eapply Has_error. }
  destruct has; simpl.
  - rewrite bind_run. destruct (Get v s0) as [[b|e0] s1] eqn:EG.
    2:{ intros [= <- _]. left. by eapply Get_error. }
    destruct (unmarshalKeyword b) as [kw|]; [|intros [= <- _]; by right].
    destruct (detected id (LensIdentifiers kw)); [apply IH|].
    rewrite bind_run.
    destruct (Put v _ s1) as [[[]|e0] s2] eqn:EP; [apply IH|].
    intros [= <- _]. left. by eapply Put_error.
  - rewrite bind_run.
    destruct (Put v _ s0) as [[[]|e0] s1] eqn:EP; [apply IH|].
    intros [= <- _]. left. by eapply Put_error.
Qed.

Lemma addId_is_Some id v o : is_Some o → is_Some (addId id v o).
Proof.
  intros [b ->]. unfold addId. destruct (unmarshalKeyword b) as [kw|]; [|eauto].
  destruct (detected id (LensIdentifiers kw)); eauto.
Qed.

(** Under any key, the store after [Store] holds the object record, the
    name record, or what the keyword loop made of the former value. *)
Lemma storeUpTo_cases id meta name p m k :
  stoppedInLoop meta p →
  (k = id ∧ storeUpTo id meta name p m !! k
            = Some (ObjectJSON (mkObject id name meta))) ∨
  (k = name ∧ storeUpTo id meta name p m !! k = Some (IDText id)) ∨
  (∃ vs : list string, (∀ x, x ∈ vs → x ∈ Summary meta) ∧
         storeUpTo id meta name p m !! k =
         if bool_decide (k ∈ vs) then addId id k (m !! k) else m !! k).
Proof.
  intros Hp. destruct p as [processed remaining| | |]; simpl in *.
  - right; right. exists processed. split; [|apply addKeywords_lookup].
    intros x Hx. destruct Hp as [-> _]. apply elem_of_app. by left.
  - right; right. exists (Summary meta). split; [done|apply addKeywords_lookup].
  - destruct (decide (k = name)) as [->|Hn].
    + right; left. by rewrite lookup_insert_eq.
    + right; right. exists (Summary meta). split; [done|].
      rewrite lookup_insert_ne by done. apply addKeywords_lookup.
  - destruct (decide (k = id)) as [->|Hi].
    + left. by rewrite lookup_insert_eq.
    + rewrite lookup_insert_ne by done.
      destruct (decide (k = name)) as [->|Hn].
      * right; left. by rewrite lookup_insert_eq.
      * right; right. exists (Summary meta). split; [done|].
        rewrite lookup_insert_ne by done. apply addKeywords_lookup.
Qed.

Lemma Store_any_run newV4 dag meta name s :
  (newV4 = None ∧ Store newV4 dag meta name s = (Err ErrUUID, s)) ∨
  (∃ id p, newV4 = Some id ∧ stoppedInLoop meta p ∧
           ss (snd (Store newV4 dag meta name s))
             = storeUpTo id meta name p (ss s)).
Proof.
  destruct newV4 as [id|]; [right|by left].
  destruct (Store (Some id) dag meta name s) as [r s'] eqn:Hrun.
  destruct (Store_run _ _ _ _ _ _ _ Hrun) as (_ & p & Hss & Hp & _).
  by exists id, p.
Qed.

(** X3.  [Store] writes under the keywords of the summary, under the name
    and under the text of the identifier, and nowhere else: whatever the
    call returns, every other key holds what it held. *)
Theorem Store_frame newV4 dag meta name s k :
  k ∉ Summary meta → k ≠ name → newV4 ≠ Some k →
  ss (snd (Store newV4 dag meta name s)) !! k = ss s !! k.
Proof.
  intros Hk Hn Hi.
  destruct (Store_any_run newV4 dag meta name s)
    as [[_ ->]|(id & p & -> & Hp & ->)]; [done|].
  destruct (storeUpTo_cases id meta name p (ss s) k Hp)
    as [[-> _]|[[-> _]|(vs & Hvs & ->)]]; [done|done|].
  rewrite bool_decide_eq_false_2; [done|]. intros Hin. by apply Hk, Hvs.
Qed.

Lemma Store_frame_witness :
  let s := snd (Store (Some "id-1") exampleDag (oceanMeta "text/plain") "Qm1"
                  NewService) in
  ss (snd (Store (Some "id-2") exampleDag twoKeywords "Qm2" s)) !! "ocean"
  = ss s !! "ocean".
Proof.
  intros s.
  apply (Store_frame (Some "id-2") exampleDag twoKeywords "Qm2" s "ocean").
  - exact (not_elem_of_eval "ocean" ["x"; "y"] eq_refl).
  - exact (neq_eval "ocean" "Qm2" eq_refl).
  - discriminate.
Defined.

(** X4.  [Store] deletes nothing: whatever the call returns, a key that
    held a value holds one afterwards.  So does any sequence of calls. *)
Theorem Store_keeps_keys :
  (∀ newV4 dag meta name s k,
     is_Some (ss s !! k) →
     is_Some (ss (snd (Store newV4 dag meta name s)) !! k)) ∧
  (∀ l s k, is_Some (ss s !! k) → is_Some (ss (runStores l s) !! k)).
Proof.
  assert (Hone : ∀ newV4 dag meta name s k,
            is_Some (ss s !! k) →
            is_Some (ss (snd (Store newV4 dag meta name s)) !! k)).
  { intros newV4 dag meta name s k Hk.
    destruct (Store_any_run newV4 dag meta name s)
      as [[_ ->]|(id & p & -> & Hp & ->)]; [done|].
    destruct (storeUpTo_cases id meta name p (ss s) k Hp)
      as [[_ ->]|[[_ ->]|(vs & _ & ->)]]; [eauto|eauto|].
    case_bool_decide; [by apply addId_is_Some|done]. }
  split; [exact Hone|].
  induction l as [|x rest IH]; intros s k Hk; simpl; [done|].
  by apply IH, Hone.
Qed.

Lemma Store_keeps_keys_witness :
  let s := snd (Store (Some "id-1") exampleDag twoKeywords "Qm1" NewService) in
  is_Some (ss (snd (Store (Some "id-2") exampleDag (oceanMeta "text/plain")
                      "Qm1" s)) !! "Qm1") ∧
  is_Some (ss (runStores [mkStoreCall (Some "id-2") exampleDag twoKeywords "x";
                          mkStoreCall None exampleDag twoKeywords "Qm3"] s)
             !! "x").
Proof.
  intros s.
  assert (H1 : is_Some (ss s !! "Qm1"))
    by (exists (IDText "id-1"); vm_compute; reflexivity).
  assert (H2 : is_Some (ss s !! "x"))
    by (exists (KeywordJSON (mkKeyword "x" ["id-1"])); vm_compute; reflexivity).
  split.
  - exact (proj1 Store_keeps_keys _ _ _ _ _ _ H1).
  - exact (proj2 Store_keeps_keys _ _ _ H2).
Defined.

(** X5.  [Store] takes no identifier out of a keyword record: whatever
    the call returns, a keyword record that is neither under the name nor
    under the text of the identifier of the call is still a keyword
    record with the same keyword name, and it holds every identifier it
    held. *)
Theorem Store_keeps_identifiers newV4 dag meta name s k keyword0 :
  ss s !! k = Some (KeywordJSON keyword0) →
  k ≠ name → newV4 ≠ Some k →
  ∃ keyword,
    ss (snd (Store newV4 dag meta name s)) !! k = Some (KeywordJSON keyword) ∧
    KeywordName keyword = KeywordName keyword0 ∧
    ∀ x, x ∈ LensIdentifiers keyword0 → x ∈ LensIdentifiers keyword.
Proof.
  intros Hk Hn Hi.
  destruct (Store_any_run newV4 dag meta name s)
    as [[_ ->]|(id & p & -> & Hp & ->)]; [eauto|].
  destruct (storeUpTo_cases id meta name p (ss s) k Hp)
    as [[-> _]|[[-> _]|(vs & _ & ->)]]; [done|done|].
  case_bool_decide; [|eauto].
  rewrite Hk. unfold addId. simpl.
  destruct (detected id (LensIdentifiers keyword0)); [eauto|].
  eexists. split; [done|]. split; [done|]. simpl.
  intros x Hx. apply elem_of_app. by left.
Qed.

Lemma Store_keeps_identifiers_witness :
  let s := snd (Store (Some "id-1") exampleDag (oceanMeta "text/plain") "Qm1"
                  NewService) in
  ∃ keyword,
    ss (snd (Store (Some "id-2") exampleDag (oceanMeta "text/html") "Qm2" s))
      !! "ocean" = Some (KeywordJSON keyword) ∧
    KeywordName keyword = "ocean" ∧
    ∀ x, x ∈ ["id-1"] → x ∈ LensIdentifiers keyword.
Proof.
  intros s.
  apply (Store_keeps_identifiers (Some "id-2") exampleDag (oceanMeta "text/html")
           "Qm2" s "ocean" (mkKeyword "ocean" ["id-1"])).
  - vm_compute; reflexivity.
  - exact (neq_eval "ocean" "Qm2" eq_refl).
  - discriminate.
Defined.

(** ** [Store]: the errors after the keyword loop *)

Lemma storeKeywords_ok id summary s s0 :
  storeKeywords id summary s = (Ok tt, s0) →
  ss s0 = addKeywords id summary (ss s) ∧
  ∀ k, k ∈ summary →
       ∃ keyword, ss s0 !! k = Some (KeywordJSON keyword) ∧
                  id ∈ LensIdentifiers keyword.
Proof.
  intros Hloop.
  destruct (storeKeywords_run _ _ _ _ _ Hloop)
    as (_ & processed & remaining & Hsum & Hss & Hok & _ & Hp).
  rewrite (Hok eq_refl), app_nil_r in Hsum. subst processed.
  split; [done|]. intros k Hk.
  rewrite Hss, addKeywords_lookup, bool_decide_eq_true_2 by done.
  apply addId_member. intros i. by apply Hp.
Qed.

(** X6.  [s.im.DagPut] comes last in [Store].  When [Store] returns the
    error of [DagPut], the datastore already holds the object record
    under the identifier and the name record under the name, and the
    keywords hold the identifier: the call failed and the object is
    indexed all the same, so the guard of [Magnify] rejects the name from
    then on (the datastore answering). *)
Theorem Store_DagPut_failure id dag meta name s s' :
  Store (Some id) dag meta name s = (Err ErrDag, s') →
  dag (mkObject id name meta) = None ∧
  ss s' !! id = Some (ObjectJSON (mkObject id name meta)) ∧
  (name ≠ id → ss s' !! name = Some (IDText id)) ∧
  (∀ k, k ∈ Summary meta → k ≠ name → k ≠ id →
        ∃ keyword, ss s' !! k = Some (KeywordJSON keyword) ∧
                   id ∈ LensIdentifiers keyword) ∧
  (∀ c, answers s' → fst (Magnify c name s') = Err ErrAlreadyIndexed).
Proof.
  unfold Store. rewrite bind_run.
  destruct (storeKeywords id (Summary meta) s) as [[[]|e] s0] eqn:Eloop.
  2:{ intros [= -> _]. by destruct (storeKeywords_error _ _ _ _ _ Eloop). }
  destruct (storeKeywords_ok _ _ _ _ Eloop) as [Hss0 Hkw].
  rewrite bind_run.
  destruct (Put name (IDText id) s0) as [[[]|e] s1] eqn:E1.
  2:{ intros [= -> _]. by pose proof (Put_error _ _ _ _ _ E1). }
  rewrite bind_run.
  destruct (Put id (ObjectJSON (mkObject id name meta)) s1) as [[[]|e] s2] eqn:E2.
  2:{ intros [= -> _]. by pose proof (Put_error _ _ _ _ _ E2). }
  destruct (dag (mkObject id name meta)) as [hash|]; [discriminate|].
  intros [= <-].
  destruct (Put_run name (IDText id) s0) as (t1 & _ & [[E _]|[E Hss1]]);
    rewrite E in E1; [discriminate|]. injection E1 as ->.
  destruct (Put_run id (ObjectJSON (mkObject id name meta)) s1)
    as (t2 & _ & [[E' _]|[E' Hss2]]); rewrite E' in E2; [discriminate|].
  injection E2 as ->.
  assert (Hid : ss s2 !! id = Some (ObjectJSON (mkObject id name meta)))
    by (by rewrite Hss2, lookup_insert_eq).
  assert (Hname : name ≠ id → ss s2 !! name = Some (IDText id)).
  { intros Hne. by rewrite Hss2, lookup_insert_ne, Hss1, lookup_insert_eq. }
  split; [done|]. split; [done|]. split; [done|]. split.
  - intros k Hk Hkn Hki. rewrite Hss2, lookup_insert_ne, Hss1, lookup_insert_ne by done.
    by apply Hkw.
  - intros c Hans. rewrite Magnify_indexed; [done| |done].
    destruct (decide (name = id)) as [->|Hne]; [by rewrite Hid|].
    by rewrite Hname.
Qed.

Lemma Store_DagPut_failure_witness :
  let meta := mkMetaData ["a"; "b"] "text/plain" "document" in
  let r := Store (Some "id-1") (fun _ => None) meta "Qm1" NewService in
  fst r = Err ErrDag ∧
  ss (snd r) !! "id-1" = Some (ObjectJSON (mkObject "id-1" "Qm1" meta)) ∧
  fst (Magnify (example "id-2" "text/plain" ["a"]) "Qm1" (snd r))
    = Err ErrAlreadyIndexed.
Proof.
  intros meta r.
  assert (H1 : Store (Some "id-1") (fun _ => None) meta "Qm1" NewService
               = (Err ErrDag, snd r)) by (vm_compute; reflexivity).
  assert (Hans : answers (snd r)) by (vm_compute; discriminate).
  destruct (Store_DagPut_failure _ _ _ _ _ _ H1) as (_ & Hid & _ & _ & Hm).
  exact (conj (f_equal fst H1) (conj Hid (Hm _ Hans))).
Defined.

(** X7.  [Store] undoes nothing.  When the keyword loop went through and
    the [Put] of the name record fails, [Store] returns that error; every
    keyword of the summary then has a record that holds the identifier,
    while nothing was written under the name or under the identifier
    (when these are not keywords): the keyword records point to an object
    the store does not have. *)
Theorem Store_no_rollback id dag meta name s s0 e s1 :
  storeKeywords id (Summary meta) s = (Ok tt, s0) →
  Put name (IDText id) s0 = (Err e, s1) →
  Store (Some id) dag meta name s = (Err e, s1) ∧
  (∀ k, k ∈ Summary meta →
        ∃ keyword, ss s1 !! k = Some (KeywordJSON keyword) ∧
                   id ∈ LensIdentifiers keyword) ∧
  (name ∉ Summary meta → ss s1 !! name = ss s !! name) ∧
  (id ∉ Summary meta → ss s1 !! id = ss s !! id).
Proof.
  intros Hloop Hput.
  destruct (storeKeywords_ok _ _ _ _ Hloop) as [Hss0 Hkw].
  destruct (Put_run name (IDText id) s0) as (t1 & _ & [[E Hss1]|[E _]]);
    rewrite E in Hput; [|discriminate]. injection Hput as <- <-.
  split; [unfold Store; by rewrite bind_run, Hloop, bind_run, E|].
  split; [intros k Hk; rewrite Hss1; by apply Hkw|].
  split; intros Hnot; rewrite Hss1, Hss0, addKeywords_lookup;
    by rewrite bool_decide_eq_false_2.
Qed.

Lemma Store_no_rollback_witness :
  let s := mkService ∅ [false; false; false; false; true] [] [] in
  let r := Store (Some "id-1") exampleDag twoKeywords "Qm1" s in
  fst r = Err ErrStore ∧
  (∀ k, k ∈ ["x"; "y"] →
        ∃ keyword, ss (snd r) !! k = Some (KeywordJSON keyword) ∧
                   "id-1" ∈ LensIdentifiers keyword) ∧
  ss (snd r) !! "Qm1" = None ∧ ss (snd r) !! "id-1" = None.
Proof.
  intros s r.
  assert (H0 : storeKeywords "id-1" (Summary twoKeywords) s
               = (Ok tt, snd (storeKeywords "id-1" (Summary twoKeywords) s)))
    by (vm_compute; reflexivity).
  assert (H1 : Put "Qm1" (IDText "id-1")
                 (snd (storeKeywords "id-1" (Summary twoKeywords) s))
               = (Err ErrStore, snd r)) by (vm_compute; reflexivity).
  destruct (Store_no_rollback "id-1" exampleDag twoKeywords "Qm1" s _ _ _ H0 H1)
    as (Hr & Hkw & Hname & Hid).
  split; [exact (f_equal fst Hr)|]. split; [exact Hkw|]. split.
  - exact (Hname (not_elem_of_eval "Qm1" ["x"; "y"] eq_refl)).
  - exact (Hid (not_elem_of_eval "id-1" ["x"; "y"] eq_refl)).
Defined.

(** ** [Store]: a keyword that is the name of an indexed object *)

Lemma Store_stopped_in_keywords_aux id dag meta name s e s' :
  storeKeywords id (Summary meta) s = (Err e, s') →
  Store (Some id) dag meta name s = (Err e, s') ∧
  ∀ k, k ∉ Summary meta → ss s' !! k = ss s !! k.
Proof.
  intros Hloop.
  destruct (storeKeywords_run _ _ _ _ _ Hloop)
    as (_ & processed & remaining & Hsum & Hss & _ & _ & _).
  split; [unfold Store; by rewrite bind_run, Hloop|].
  intros k Hk. rewrite Hss, addKeywords_lookup.
  rewrite bool_decide_eq_false_2; [done|].
  intros Hin. apply Hk. rewrite Hsum. apply elem_of_app. by left.
Qed.

Lemma Put_answers k b s :
  answers s →
  Put k b s = (Ok tt, mkService (<[k := b]> (ss s)) (tail (ss_faults s)) (ta s)
                        (calls s ++ [CallPut k])).
Proof.
  unfold answers, Put, bind, log, fault, fail. simpl.
  by destruct (ss_faults s) as [|[] fs].
Qed.

Lemma quiet_answers s : ss_faults s = [] → answers s.
Proof. unfold answers. by intros ->. Qed.

Lemma storeKeywords_on_name_record id v i : ∀ summary s,
  ss_faults s = [] → v ∈ summary → ss s !! v = Some (IDText i) →
  fst (storeKeywords id summary s) = Err ErrUnmarshal.
Proof.
  induction summary as [|w rest IH]; intros s Hf Hin Hv.
  { by apply not_elem_of_nil in Hin. }
  simpl. rewrite bind_run, (Has_answers _ _ (quiet_answers _ Hf)), Hf.
  set (s0 := mkService (ss s) (tail []) (ta s) (calls s ++ [CallHas w])).
  assert (Hf0 : ss_faults s0 = []) by done.
  destruct (decide (w = v)) as [->|Hne].
  - rewrite Hv, bool_decide_eq_true_2 by eauto. simpl.
    rewrite bind_run, (Get_answers _ _ (quiet_answers _ Hf0)). simpl.
    by rewrite Hv.
  - apply elem_of_cons in Hin as [?|Hin]; [done|].
    destruct (ss s !! w) as [b|] eqn:Ew.
    + rewrite bool_decide_eq_true_2 by eauto. simpl.
      rewrite bind_run, (Get_answers _ _ (quiet_answers _ Hf0)). simpl.
      rewrite Ew.
      destruct (unmarshalKeyword b) as [kw|]; [|done].
      destruct (detected id (LensIdentifiers kw)).
      * by apply IH.
      * rewrite bind_run, Put_answers by (by apply quiet_answers).
        apply IH; simpl; [done|done|]. by rewrite lookup_insert_ne.
    + rewrite bool_decide_eq_false_2 by (intros [? ?]; discriminate). simpl.
      rewrite bind_run, Put_answers by (by apply quiet_answers).
      apply IH; simpl; [done|done|]. by rewrite lookup_insert_ne.
Qed.

(** X8.  The keyword records and the name records live under the same
    keys.  When a keyword of the summary is a key that holds the text of
    an identifier (the name of an indexed object), [Store] never returns
    a response; with a datastore that answers it returns the error of
    [json.Unmarshal], and neither the name record nor the object record
    of the call is written. *)
Theorem Store_keyword_on_name_record id dag meta name s v i :
  v ∈ Summary meta → ss s !! v = Some (IDText i) →
  (∀ resp s', Store (Some id) dag meta name s ≠ (Ok resp, s')) ∧
  (ss_faults s = [] →
   fst (Store (Some id) dag meta name s) = Err ErrUnmarshal ∧
   (name ∉ Summary meta →
    ss (snd (Store (Some id) dag meta name s)) !! name = ss s !! name) ∧
   (id ∉ Summary meta →
    ss (snd (Store (Some id) dag meta name s)) !! id = ss s !! id)).
Proof.
  intros Hin Hv. split.
  - intros resp s' Hrun.
    by apply (Store_ok_summary _ _ _ _ _ _ _ Hrun v i).
  - intros Hf.
    pose proof (storeKeywords_on_name_record id v i _ s Hf Hin Hv) as Hloop.
    destruct (storeKeywords id (Summary meta) s) as [r0 s0] eqn:Eloop.
    simpl in Hloop. subst r0.
    destruct (Store_stopped_in_keywords_aux id dag meta name s _ _ Eloop)
      as (Hstore & Hframe).
    rewrite Hstore. simpl. split; [done|]. split; intros Hnot; by apply Hframe.
Qed.

Lemma Store_keyword_on_name_record_witness :
  let s := snd (Store (Some "id-1") exampleDag twoKeywords "Qm1" NewService) in
  let meta := mkMetaData ["z"; "Qm1"] "text/plain" "document" in
  fst (Store (Some "id-2") exampleDag meta "Qm2" s) = Err ErrUnmarshal ∧
  ss (snd (Store (Some "id-2") exampleDag meta "Qm2" s)) !! "Qm2" = ss s !! "Qm2".
Proof.
  intros s meta.
  assert (Hin : "Qm1" ∈ Summary meta) by (right; left).
  assert (Hv : ss s !! "Qm1" = Some (IDText "id-1")) by (vm_compute; reflexivity).
  assert (Hf : ss_faults s = []) by (vm_compute; reflexivity).
  destruct (Store_keyword_on_name_record "id-2" exampleDag meta "Qm2" s
              "Qm1" "id-1" Hin Hv) as [_ Hq].
  destruct (Hq Hf) as (He & Hname & _).
  exact (conj He (Hname (not_elem_of_eval "Qm2" ["z"; "Qm1"] eq_refl))).
Defined.

(** ** [Store] and [Magnify] over time *)

Lemma Store_keeps_keys_run l : ∀ s k,
  is_Some (ss s !! k) → is_Some (ss (runStores l s) !! k).
Proof.
  induction l as [|x rest IH]; intros s k Hk; simpl; [done|].
  apply IH.
  destruct (Store_any_run (callNewV4 x) (callDagPut x) (callMeta x)
              (callName x) s) as [[_ ->]|(id & p & _ & Hp & ->)]; [done|].
  destruct (storeUpTo_cases id (callMeta x) (callName x) p (ss s) k Hp)
    as [[_ ->]|[[_ ->]|(vs & _ & ->)]]; [eauto|eauto|].
  case_bool_decide; [by apply addId_is_Some|done].
Qed.

(** X9.  Once something is stored under a name, the guard of [Magnify]
    rejects the name for good: after any further calls of [Store],
    whatever they return, [Magnify] of the name fails with "this object
    has already been indexed" (the datastore answering). *)
Theorem Magnify_rejects_for_good l c name s :
  is_Some (ss s !! name) → answers (runStores l s) →
  fst (Magnify c name (runStores l s)) = Err ErrAlreadyIndexed.
Proof.
  intros Hsome Hans. rewrite Magnify_indexed; [done| |done].
  by apply Store_keeps_keys_run.
Qed.

Lemma Magnify_rejects_for_good_witness :
  let s := snd (Store (Some "id-1") exampleDag twoKeywords "Qm1" NewService) in
  let l := [mkStoreCall (Some "id-2") exampleDag (oceanMeta "text/plain") "Qm2";
            mkStoreCall None exampleDag twoKeywords "Qm3"] in
  fst (Magnify (example "id-9" "text/plain" ["x"]) "Qm1" (runStores l s))
  = Err ErrAlreadyIndexed.
Proof.
  intros s l. apply Magnify_rejects_for_good.
  - exists (IDText "id-1"). vm_compute; reflexivity.
  - vm_compute. discriminate.
Defined.

(** X10.  The keyword records [Store] leaves do not depend on the order
    of the keywords in the summary nor on a keyword being listed twice:
    two calls that return a response, with the same identifier and name,
    on stores that hold the same, with summaries that list the same
    keywords, leave the same value under every key but the identifier
    (where the object record carries the summary as it was given). *)
Theorem Store_summary_order id dag1 dag2 meta1 meta2 name s t resp1 resp2 s' t' :
  ss s = ss t →
  (∀ k, k ∈ Summary meta1 ↔ k ∈ Summary meta2) →
  Store (Some id) dag1 meta1 name s = (Ok resp1, s') →
  Store (Some id) dag2 meta2 name t = (Ok resp2, t') →
  ∀ k, k ≠ id → ss s' !! k = ss t' !! k.
Proof.
  intros Hst Hsame Hrun1 Hrun2 k Hk.
  rewrite (Store_ok_lookup _ _ _ _ _ _ _ k Hrun1).
  rewrite (Store_ok_lookup _ _ _ _ _ _ _ k Hrun2).
  rewrite !(decide_False (P := k = id)) by done. rewrite Hst.
  by rewrite (bool_decide_ext _ _ (Hsame k)).
Qed.

Lemma Store_summary_order_witness :
  let m1 := mkMetaData ["x"; "y"] "text/plain" "document" in
  let m2 := mkMetaData ["y"; "x"; "y"] "text/plain" "document" in
  let s1 := snd (Store (Some "id-1") exampleDag m1 "Qm1" NewService) in
  let s2 := snd (Store (Some "id-1") exampleDag m2 "Qm1" NewService) in
  ss s1 !! "x" = ss s2 !! "x" ∧ ss s1 !! "y" = ss s2 !! "y" ∧
  ss s1 !! "Qm1" = ss s2 !! "Qm1".
Proof.
  intros m1 m2 s1 s2.
  assert (H1 : Store (Some "id-1") exampleDag m1 "Qm1" NewService
               = (Ok (mkIndexOperationResponse "bafy-object" "id-1"), s1))
    by (vm_compute; reflexivity).
  assert (H2 : Store (Some "id-1") exampleDag m2 "Qm1" NewService
               = (Ok (mkIndexOperationResponse "bafy-object" "id-1"), s2))
    by (vm_compute; reflexivity).
  assert (Hsame : ∀ k, k ∈ Summary m1 ↔ k ∈ Summary m2).
  { intros k. unfold m1, m2. simpl. rewrite !elem_of_cons. tauto. }
  pose proof (Store_summary_order "id-1" exampleDag exampleDag m1 m2 "Qm1"
                NewService NewService _ _ _ _ eq_refl Hsame H1 H2) as H.
  exact (conj (H "x" (neq_eval "x" "id-1" eq_refl))
           (conj (H "y" (neq_eval "y" "id-1" eq_refl))
                 (H "Qm1" (neq_eval "Qm1" "id-1" eq_refl)))).
Defined.

(** X11.  The check "this object has already been indexed for the
    particular keyword" makes the keyword loop repeatable: once the loop
    went through for an identifier, going through it again for the same
    identifier and summary changes nothing in the store, wherever the
    second pass stops. *)
Theorem storeKeywords_again id summary s s1 r s2 :
  storeKeywords id summary s = (Ok tt, s1) →
  storeKeywords id summary s1 = (r, s2) →
  ss s2 = ss s1.
Proof.
  intros Hrun1 Hrun2.
  destruct (storeKeywords_ok _ _ _ _ Hrun1) as [Hss1 _].
  destruct (storeKeywords_run _ _ _ _ _ Hrun2)
    as (_ & processed & remaining & Hsum & Hss2 & _ & _ & _).
  apply map_eq. intros k. rewrite Hss2, addKeywords_lookup.
  case_bool_decide as Hk; [|done].
  rewrite Hss1, addKeywords_lookup, bool_decide_eq_true_2; [apply addId_idem|].
  rewrite Hsum. apply elem_of_app. by left.
Qed.

Lemma storeKeywords_again_witness :
  let s1 := snd (storeKeywords "id-1" ["x"; "y"] NewService) in
  ss (snd (storeKeywords "id-1" ["x"; "y"] s1)) = ss s1.
Proof.
  intros s1.
  apply (storeKeywords_again "id-1" ["x"; "y"] NewService s1
           (fst (storeKeywords "id-1" ["x"; "y"] s1))).
  - vm_compute; reflexivity.
  - by destruct (storeKeywords "id-1" ["x"; "y"] s1).
Defined.

(** ** [Magnify]: what it never does, what it returns *)

(** X12.  [Magnify] reads the datastore once and never writes to it:
    whatever it returns, the store is as before, the only datastore call
    it made is the [Has] of the guard, and none of its calls is a [Put]. *)
Theorem Magnify_never_writes c h s :
  ss (snd (Magnify c h s)) = ss s ∧
  ss_faults (snd (Magnify c h s)) = tail (ss_faults s) ∧
  ∃ l, calls (snd (Magnify c h s)) = (calls s ++ l)%list ∧
       List.filter isDatastoreCall l = [CallHas h] ∧
       List.forallb (fun x => negb (isPut x)) l = true.
Proof.
  magnify_unfold.
  destruct (ss_faults s) as [|[] fs]; simpl;
    try destruct (bool_decide (is_Some (ss s !! h))); simpl;
    magnify_cases c h;
    (split; [reflexivity|split; [reflexivity|]]);
    rewrite <- ?app_assoc; eexists; (split; [reflexivity|]);
    split; reflexivity.
Qed.

Lemma fieldsFrom_fields f : ∀ s field,
  anyChar f field = false →
  Forall (fun x => x ≠ "" ∧ anyChar f x = false) (fieldsFrom f field s).
Proof.
  assert (Hsnoc : ∀ (field : string) r,
            anyChar f field = false → f r = false →
            anyChar f (field ++ String r "") = false).
  { induction field as [|a field IH]; intros r Hfield Hr.
    - change ("" ++ String r "") with (String r ""). simpl. by rewrite Hr.
    - rewrite append_cons. simpl in *.
      apply orb_false_iff in Hfield as [-> Hfield]. simpl. by apply IH. }
  induction s as [|r rest IH]; intros field Hfield; simpl.
  - destruct (String.eqb_spec field ""); [constructor|].
    by repeat constructor.
  - destruct (f r) eqn:Hr.
    + destruct (String.eqb_spec field "").
      * by apply IH.
      * constructor; [done|]. by apply IH.
    + apply IH. by apply Hsnoc.
Qed.

Lemma classify_ok c contents contentType parsed parsed2 s mc s1 :
  classify c contents contentType parsed parsed2 s = (Ok mc, s1) →
  ∃ parsed0 rest,
    parsed = parsed0 :: rest ∧
    ((parsed0 = "application/pdf" ∧ snd mc = "pdf") ∨
     (parsed0 ≠ "application/pdf" ∧
      ∃ parsed20 rest2,
        parsed2 = parsed20 :: rest2 ∧
        ((parsed20 = "text" ∧ snd mc = "document") ∨
         (parsed20 = "image" ∧ snd mc = "image")))).
Proof.
  unfold classify. destruct parsed as [|parsed0 rest]; [discriminate|].
  intros Hrun. exists parsed0, rest. split; [done|]. revert Hrun.
  destruct (String.eqb_spec parsed0 "application/pdf") as [->|Hpdf].
  - unfold Summarize, liftOption, bind, log, ret. simpl.
    destruct (GetPlainText c contents); simpl; [|discriminate].
    intros [= <- _]. by left.
  - destruct parsed2 as [|parsed20 rest2]; [discriminate|].
    intros Hrun. right. split; [done|]. exists parsed20, rest2.
    split; [done|]. revert Hrun.
    destruct (String.eqb_spec parsed20 "text") as [->|Htext].
    + unfold Summarize, bind, log, ret. simpl. intros [= <- _]. by left.
    + destruct (String.eqb_spec parsed20 "image") as [->|Himage]; [|discriminate].
      unfold liftOption, bind, log, ret. simpl.
      destruct (ClassifyImage c contents); simpl; [|discriminate].
      intros [= <- _]. by right.
Qed.

(** X13.  What [Magnify] returns when it returns metadata.  The name was
    not in the store and its contents were fetched.  The MIME type of the
    metadata is the detected content type in full, parameters included,
    while the content type returned beside the metadata is its first
    field between semicolons: it is not empty and holds no semicolon.
    The category is "pdf" exactly when that field is application/pdf, and
    otherwise "document" or "image". *)
Theorem Magnify_metadata c h s contentType metadata s' :
  Magnify c h s = (Ok (contentType, metadata), s') →
  ss s !! h = None ∧
  (∃ contents, ExtractContents c h = Some contents ∧
               MimeType metadata = DetectContentType c contents ∧
               contentType = hd "" (FieldsFunc isSemicolon (MimeType metadata))) ∧
  contentType ≠ "" ∧ anyChar isSemicolon contentType = false ∧
  ((contentType = "application/pdf" ∧ Category metadata = "pdf") ∨
   (contentType ≠ "application/pdf" ∧
    (Category metadata = "document" ∨ Category metadata = "image"))).
Proof.
  unfold Magnify. rewrite bind_run.
  destruct (Has_run h s) as (s0 & _ & _ & [E|E]); rewrite E; [discriminate|].
  destruct (ss s !! h) as [b|] eqn:Eh.
  { rewrite bool_decide_eq_true_2 by eauto. discriminate. }
  rewrite bool_decide_eq_false_2 by (intros [? ?]; discriminate).
  unfold examine, liftOption, Clear. rewrite !bind_run. unfold log at 1. simpl.
  destruct (ExtractContents c h) as [contents|] eqn:Eext; [|discriminate].
  unfold ret at 1. rewrite !bind_run. unfold log at 1. simpl.
  rewrite !bind_run.
  destruct (classify _ _ _ _ _ _) as [[mc|e] s1] eqn:Ec; [|discriminate].
  rewrite bind_run. unfold log at 1. simpl. unfold ret.
  intros [= <- <- <-]. simpl.
  destruct (classify_ok _ _ _ _ _ _ _ _ Ec) as (parsed0 & rest & Hparsed & Hcat).
  pose proof (fieldsFrom_fields isSemicolon (DetectContentType c contents) ""
                eq_refl) as Hfields.
  fold (FieldsFunc isSemicolon (DetectContentType c contents)) in Hfields.
  rewrite Hparsed in *. simpl.
  apply Forall_cons in Hfields as [[Hne Hsemi] _].
  split; [done|]. split; [by exists contents|].
  split; [done|]. split; [done|].
  destruct Hcat as [[-> ->]|(Hpdf & q & rest2 & _ & [[_ ->]|[_ ->]])]; auto.
Qed.

Lemma Magnify_metadata_witness :
  let out := Magnify (example "id-1" "text/html; charset=utf-8" ["tide"]) "Qm1"
               NewService in
  fst out = Ok ("text/html",
                mkMetaData ["contents of Qm1"; "tide"]
                           "text/html; charset=utf-8" "document") ∧
  anyChar isSemicolon "text/html" = false.
Proof.
  intros out.
  assert (Hrun : Magnify (example "id-1" "text/html; charset=utf-8" ["tide"])
                   "Qm1" NewService
                 = (Ok ("text/html",
                        mkMetaData ["contents of Qm1"; "tide"]
                                   "text/html; charset=utf-8" "document"),
                    snd out)) by (vm_compute; reflexivity).
  destruct (Magnify_metadata _ _ _ _ _ _ Hrun) as (_ & _ & _ & Hsemi & _).
  exact (conj (f_equal fst Hrun) Hsemi).
Defined.

(** X14.  The errors of the collaborators of [Magnify] come back as they
    are and stop it on the spot (the name not being in the store and the
    datastore answering).  When the fetch fails, the content type is not
    detected.  When the PDF reader fails on an application/pdf, or the
    image classifier on an image/..., the summarizer is not called and
    not cleared.  In the three cases the store and the text analyzer are
    as before. *)
Theorem Magnify_collaborator_errors c h s :
  ss s !! h = None → answers s →
  (ExtractContents c h = None →
   Magnify c h s =
   (Err ErrFetch,
    mkService (ss s) (tail (ss_faults s)) (ta s)
      (calls s ++ [CallHas h; CallExtractContents h]))) ∧
  (∀ contents,
     ExtractContents c h = Some contents →
     essence (DetectContentType c contents) = "application/pdf" →
     GetPlainText c contents = None →
     Magnify c h s =
     (Err ErrPDF,
      mkService (ss s) (tail (ss_faults s)) (ta s)
        (calls s ++ [CallHas h; CallExtractContents h; CallDetectContentType;
                     CallPDFText]))) ∧
  (∀ contents rest,
     ExtractContents c h = Some contents →
     DetectContentType c contents = "image/" ++ rest →
     ClassifyImage c contents = None →
     Magnify c h s =
     (Err ErrImage,
      mkService (ss s) (tail (ss_faults s)) (ta s)
        (calls s ++ [CallHas h; CallExtractContents h; CallDetectContentType;
                     CallClassifyImage]))).
Proof.
  intros Hnone Hans. split; [|split].
  - intros Hext. unfold Magnify.
    rewrite bind_run, (Has_answers _ _ Hans), Hnone.
    rewrite bool_decide_eq_false_2 by (intros [? ?]; discriminate).
    unfold examine, liftOption, bind, log, fail. simpl. rewrite Hext. simpl.
    by rewrite <- app_assoc.
  - intros contents Hext Hpdf Htext.
    rewrite (Magnify_fetched _ _ _ _ Hnone Hans Hext). cbv zeta.
    destruct (essence_head _ _ _ Hpdf) as [fs ->].
    unfold classify, liftOption, bind, log, fail. simpl. rewrite Htext. simpl.
    by rewrite <- app_assoc.
  - intros contents rest Hext Hct Himg.
    rewrite (Magnify_fetched _ _ _ _ Hnone Hans Hext). cbv zeta.
    destruct (fields_of_type "image" rest "i" "mage" eq_refl eq_refl eq_refl)
      as (fs & fs' & Hp & Hp2 & m' & Hm').
    change ("image" ++ "/" ++ rest) with ("image/" ++ rest) in *.
    rewrite <- Hct in *. rewrite Hp, Hp2, Hm'.
    unfold classify, liftOption, bind, log, fail. simpl. rewrite Himg. simpl.
    by rewrite <- app_assoc.
Qed.

Lemma Magnify_collaborator_errors_witness :
  fst (Magnify (failing false "text/plain") "Qm1" NewService) = Err ErrFetch ∧
  fst (Magnify (failing true "application/pdf") "Qm1" NewService) = Err ErrPDF ∧
  fst (Magnify (failing true "image/png") "Qm1" NewService) = Err ErrImage.
Proof.
  assert (Hans : answers NewService) by (vm_compute; discriminate).
  destruct (Magnify_collaborator_errors (failing false "text/plain") "Qm1"
              NewService eq_refl Hans) as (Hfetch & _ & _).
  destruct (Magnify_collaborator_errors (failing true "application/pdf") "Qm1"
              NewService eq_refl Hans) as (_ & Hpdf & _).
  destruct (Magnify_collaborator_errors (failing true "image/png") "Qm1"
              NewService eq_refl Hans) as (_ & _ & Himg).
  split; [exact (f_equal fst (Hfetch eq_refl))|]. split.
  - exact (f_equal fst (Hpdf "contents of Qm1" eq_refl eq_refl eq_refl)).
  - exact (f_equal fst (Himg "contents of Qm1" "png" eq_refl eq_refl eq_refl)).
Defined.

(** ** [Index] and [Search] *)

(** X15.  What [Index] answers can be looked up.  When [Index] without
    the reindex flag returns a response, its identifier is the one
    [uuid.NewV4] gave, the object stored under that identifier carries
    the name of the request and a summary that is the keyword list of the
    response, and [SearchByKeyName] of the identifier returns that object
    (the datastore answering). *)
Theorem Index_then_lookup c name s resp s1 :
  Index c (indexRequest name false) s = (Ok resp, s1) →
  NewV4 c = Some (Id resp) ∧
  ss s !! name = None ∧
  ∃ meta,
    Summary meta = Keywords resp ∧
    ss s1 !! Id resp = Some (ObjectJSON (mkObject (Id resp) name meta)) ∧
    (name ≠ Id resp → ss s1 !! name = Some (IDText (Id resp))) ∧
    (answersTwice s1 →
     fst (SearchByKeyName (Id resp) s1)
       = Ok (ObjectJSON (mkObject (Id resp) name meta))).
Proof.
  intros Hrun.
  destruct (Index_new_ok _ _ _ _ _ Hrun)
    as (id & r & s0 & resp0 & Hid & Hm & Hstore & ->). simpl.
  split; [done|]. split.
  { revert Hm. unfold Magnify. rewrite bind_run.
    destruct (Has_run name s) as (s' & _ & _ & [E|E]); rewrite E; [discriminate|].
    destruct (ss s !! name); [|done].
    rewrite bool_decide_eq_true_2 by eauto. discriminate. }
  exists (snd r). split; [done|].
  assert (Hobj : ss s1 !! id = Some (ObjectJSON (mkObject id name (snd r)))).
  { rewrite (Store_ok_lookup _ _ _ _ _ _ _ id Hstore). by rewrite decide_True. }
  split; [done|]. split.
  - intros Hne. rewrite (Store_ok_lookup _ _ _ _ _ _ _ name Hstore).
    rewrite decide_False by done. by rewrite decide_True.
  - intros Hans. by rewrite (SearchByKeyName_run _ _ Hans), Hobj.
Qed.

Lemma Index_then_lookup_witness :
  let out := Index (classifiedAs "id-1" ["a"; "b"]) (indexRequest "Qm1" false)
               NewService in
  ∃ meta,
    Summary meta = ["a"; "b"] ∧
    ss (snd out) !! "id-1" = Some (ObjectJSON (mkObject "id-1" "Qm1" meta)) ∧
    fst (SearchByKeyName "id-1" (snd out))
      = Ok (ObjectJSON (mkObject "id-1" "Qm1" meta)).
Proof.
  intros out.
  assert (H1 : Index (classifiedAs "id-1" ["a"; "b"]) (indexRequest "Qm1" false)
                 NewService
               = (Ok (mkIndexResponse "id-1" ["a"; "b"]), snd out))
    by (vm_compute; reflexivity).
  assert (Hans : answersTwice (snd out)) by (split; vm_compute; discriminate).
  destruct (Index_then_lookup _ _ _ _ _ H1) as (_ & _ & meta & Hs & Ho & _ & Hl).
  exists meta. exact (conj Hs (conj Ho (Hl Hans))).
Defined.

(** X16.  [Index] without the reindex flag writes nothing as long as it
    has not reached the keyword loop of [Store]: when the type of the
    request is not "ipld", when [Magnify] returns an error, or when
    [uuid.NewV4] fails, [Index] returns an error and the store is as
    before; in the first case no call at all is made. *)
Theorem Index_fails_without_writing c req s :
  Reindex req = false →
  (ReqType req ≠ "ipld" → Index c req s = (Err ErrInvalidDataType, s)) ∧
  (ReqType req = "ipld" →
   (∃ e, fst (Magnify c (Identifier req) s) = Err e) ∨ NewV4 c = None →
   (∃ e, fst (Index c req s) = Err e) ∧ ss (snd (Index c req s)) = ss s).
Proof.
  intros Hre. destruct req as [ty name re]. simpl in *. subst re. split.
  - intros Hty. unfold Index. simpl.
    by rewrite (proj2 (String.eqb_neq _ _) Hty).
  - intros -> Hfail. fold (indexRequest name false).
    rewrite Index_new_unfold.
    destruct (Magnify_run c name s) as (Hss & _ & _).
    destruct (Magnify c name s) as [[r|e] s0] eqn:Em; simpl in *.
    + destruct Hfail as [[e He]|Hnew]; [discriminate|].
      rewrite Hnew. simpl. eauto.
    + eauto.
Qed.

Lemma Index_fails_without_writing_witness :
  let s := snd (Store (Some "id-1") exampleDag twoKeywords "Qm1" NewService) in
  Index (classifiedAs "id-2" ["a"]) (mkIndexRequest "ipfs" "Qm2" false) s
    = (Err ErrInvalidDataType, s) ∧
  ss (snd (Index (failing true "text/plain") (indexRequest "Qm2" false) s)) = ss s.
Proof.
  intros s.
  destruct (Index_fails_without_writing (classifiedAs "id-2" ["a"])
              (mkIndexRequest "ipfs" "Qm2" false) s eq_refl) as [Hty _].
  destruct (Index_fails_without_writing (failing true "text/plain")
              (indexRequest "Qm2" false) s eq_refl) as [_ Hnew].
  split.
  - exact (Hty (neq_eval "ipfs" "ipld" eq_refl)).
  - exact (proj2 (Hnew eq_refl (or_intror eq_refl))).
Defined.

(** X17.  The slice [Search] answers, for any result of the keyword
    search.  For [n] objects it has [2 n] entries: the first [n] are nil
    pointers, and entry [n + i] is the record of object [i], with its
    name, MIME type and category, in the order of the keyword search.
    [Search] changes nothing in the service, and an error of the keyword
    search is returned with no slice. *)
Theorem Search_entries c keywords s :
  snd (Search c keywords s) = s ∧
  (KeywordSearch c (ss s) keywords = None →
   fst (Search c keywords s) = Err ErrStore) ∧
  (∀ objects,
     KeywordSearch c (ss s) keywords = Some objects →
     ∃ objs,
       fst (Search c keywords s) = Ok objs ∧
       List.length objs = 2 * List.length objects ∧
       (∀ i, i < List.length objects → objs !! i = Some None) ∧
       (∀ i v, objects !! i = Some v →
               objs !! (List.length objects + i)
               = Some (Some (mkResponseObject (Name v) (MimeType (Meta v))
                               (Category (Meta v)))))).
Proof.
  unfold Search, ServiceKeywordSearch, bind, ret.
  destruct (KeywordSearch c (ss s) keywords) as [objects|]; simpl.
  - split; [done|]. split; [discriminate|].
    intros ? [= <-]. eexists. split; [done|].
    rewrite (append_each (fun v => Some (toResponse v))).
    split; [|split].
    + rewrite length_app, length_replicate, length_map. lia.
    + intros i Hi. rewrite lookup_app_l by (by rewrite length_replicate).
      by apply lookup_replicate_2.
    + intros i v Hv.
      rewrite lookup_app_r by (rewrite length_replicate; lia).
      rewrite length_replicate.
      replace (List.length objects + i - List.length objects) with i by lia.
      by rewrite list_lookup_fmap, Hv.
  - split; [done|]. split; [done|]. discriminate.
Qed.

Lemma Search_entries_witness :
  let s := snd (Index lighthouseService (indexRequest "Qm1" false) NewService) in
  ∃ objs,
    fst (Search lighthouseService ["lighthouse"] s) = Ok objs ∧
    List.length objs = 2 ∧
    objs !! 0 = Some None ∧
    objs !! 1 = Some (Some (mkResponseObject "Qm1" "image/jpeg" "image")).
Proof.
  intros s.
  destruct (Search_entries lighthouseService ["lighthouse"] s) as (_ & _ & Hobjs).
  destruct (Hobjs [mkObject "id-1" "Qm1"
                     (mkMetaData ["lighthouse"] "image/jpeg" "image")])
    as (objs & Hr & Hlen & Hnil & Hrec); [vm_compute; reflexivity|].
  exists objs. split; [exact Hr|]. split; [exact Hlen|]. split.
  - apply Hnil. simpl. lia.
  - exact (Hrec 0 _ eq_refl).
Defined.

(** ** When [Store] returns a response *)

Lemma storeKeywords_succeeds id : ∀ summary s,
  ss_faults s = [] →
  (∀ k, k ∈ summary → ¬ holdsIDText (ss s !! k)) →
  ∃ s', storeKeywords id summary s = (Ok tt, s') ∧ ss_faults s' = [].
Proof.
  induction summary as [|w rest IH]; intros s Hf Hok; [by exists s|].
  simpl. rewrite bind_run, (Has_answers _ _ (quiet_answers _ Hf)), Hf.
  set (s0 := mkService (ss s) (tail []) (ta s) (calls s ++ [CallHas w])).
  assert (Hf0 : ss_faults s0 = []) by done.
  assert (Hrest : ∀ b s1, ss s1 = <[w := KeywordJSON b]> (ss s) →
            ∀ k, k ∈ rest → ¬ holdsIDText (ss s1 !! k)).
  { intros b s1 Hs1 k Hk. rewrite Hs1.
    destruct (decide (w = k)) as [->|Hne].
    - rewrite lookup_insert_eq. intros [i ?]. discriminate.
    - rewrite lookup_insert_ne by done. apply Hok. by right. }
  destruct (ss s !! w) as [b|] eqn:Ew.
  - rewrite bool_decide_eq_true_2 by eauto. simpl.
    rewrite bind_run, (Get_answers _ _ (quiet_answers _ Hf0)). simpl.
    rewrite Ew.
    destruct (unmarshalKeyword b) as [kw|] eqn:Eu.
    2:{ destruct b; try discriminate.
        destruct (Hok w) as []; [by left|]. rewrite Ew. by eexists. }
    destruct (detected id (LensIdentifiers kw)).
    + apply IH; [done|]. intros k Hk. apply Hok. by right.
    + rewrite bind_run, Put_answers by (by apply quiet_answers).
      apply IH; [done|]. by eapply Hrest.
  - rewrite bool_decide_eq_false_2 by (intros [? ?]; discriminate). simpl.
    rewrite bind_run, Put_answers by (by apply quiet_answers).
    apply IH; [done|]. by eapply Hrest.
Qed.

(** X18.  When [Store] goes through.  With a datastore that answers, an
    identifier drawn and [DagPut] answering, when every keyword of the
    summary is a key that holds nothing or a keyword record, [Store]
    returns a response, made of the hash of [DagPut] and of the
    identifier drawn, and every keyword of the summary then has a record
    that holds the identifier, unless the keyword is the name or the text
    of the identifier. *)
Theorem Store_succeeds id dag meta name s hash :
  ss_faults s = [] →
  dag (mkObject id name meta) = Some hash →
  (∀ k, k ∈ Summary meta →
        ss s !! k = None ∨ ∃ keyword, ss s !! k = Some (KeywordJSON keyword)) →
  fst (Store (Some id) dag meta name s)
    = Ok (mkIndexOperationResponse hash id) ∧
  ∀ k, k ∈ Summary meta → k ≠ name → k ≠ id →
       ∃ keyword,
         ss (snd (Store (Some id) dag meta name s)) !! k
           = Some (KeywordJSON keyword) ∧
         id ∈ LensIdentifiers keyword.
Proof.
  intros Hf Hdag Hok.
  assert (Hok' : ∀ k, k ∈ Summary meta → ¬ holdsIDText (ss s !! k)).
  { intros k Hk [i Hi]. destruct (Hok k Hk) as [Hn|[kw Hkw]]; congruence. }
  destruct (storeKeywords_succeeds id _ s Hf Hok') as (s0 & Hloop & Hf0).
  assert (Hrun : Store (Some id) dag meta name s
                 = (Ok (mkIndexOperationResponse hash id),
                    snd (Store (Some id) dag meta name s))).
  { unfold Store. rewrite bind_run, Hloop.
    rewrite bind_run, Put_answers by (by apply quiet_answers).
    rewrite bind_run, Put_answers by (apply quiet_answers; simpl; by rewrite Hf0).
    by rewrite Hdag. }
  split; [exact (f_equal fst Hrun)|].
  intros k Hk Hkn Hki. by apply (Store_ok_keywords _ _ _ _ _ _ _ k Hrun).
Qed.

Lemma Store_succeeds_witness :
  fst (Store (Some "id-1") exampleDag twoKeywords "Qm1" NewService)
  = Ok (mkIndexOperationResponse "bafy-object" "id-1").
Proof.
  apply (Store_succeeds "id-1" exampleDag twoKeywords "Qm1" NewService
           "bafy-object" eq_refl eq_refl).
  intros k _. left. apply lookup_empty.
Defined.
